(** * ScanChIP-P: feature extraction, epsilon estimation and TAD quality scores

    A shallow embedding of [bin/ScanChIPP_f2.py].  Python integers are [Z],
    Python lists are [list], a Python [set] of integers is a [gset Z], a 2-D
    numpy array is the list of its rows.  An exception is a value of [exn],
    and a function that may raise returns a [result].

    Numbers: the quality scores only divide integers, so their floats are
    read as exact rationals ([Q]).  The epsilon estimator computes with int64
    and float64 numbers; its functions take the arithmetic as a parameter,
    and float64 is the kernel's binary64 ([float]). *)

From Stdlib Require Import ZArith QArith Floats Reals Lia Lra List.
From stdpp Require Import base list gmap sets strings.
Import ListNotations.
Open Scope Z_scope.

(** ** Exceptions and results *)

(** The exceptions the interpreter can raise in this module, and [UserError]
    for a class a program defines itself (the source defines none). *)
Inductive exn : Type :=
  | NameError (name : string)
  | ZeroDivisionError
  | ValueError
  | IndexError
  | TypeError
  | OverflowError
  | UserError (cls : string).

Inductive result (A : Type) : Type :=
  | Ok (a : A)
  | Raise (e : exn).
Arguments Ok {A} a.
Arguments Raise {A} e.

Global Instance result_ret : MRet result := λ A a, Ok a.
Global Instance result_bind : MBind result := λ A B f m,
  match m with
  | Ok a => f a
  | Raise e => Raise e
  end.

Definition returns {A} (m : result A) : Prop := ∃ a, m = Ok a.

(** ** Python building blocks *)

(** [for x in xs: body], threading the variables the body assigns. *)
Fixpoint for_in {X S : Type} (xs : list X) (body : X → S → result S) (s : S)
  : result S :=
  match xs with
  | [] => Ok s
  | x :: rest => s' ← body x s; for_in rest body s'
  end.

(** [range(start, stop)]; empty when [stop <= start]. *)
Definition py_range (start stop : Z) : list Z := seqZ start (stop - start).

(** [len(xs)] *)
Definition len {A} (xs : list A) : Z := Z.of_nat (length xs).

(** [xs[start:stop]]: a negative bound counts from the end, and both bounds
    are clamped to the list. *)
Definition slice_bound (n k : Z) : Z :=
  if k <? 0 then Z.max 0 (k + n) else Z.min k n.

Definition py_slice {A} (xs : list A) (start stop : Z) : list A :=
  let lo := slice_bound (len xs) start in
  let hi := slice_bound (len xs) stop in
  take (Z.to_nat (hi - lo)) (drop (Z.to_nat lo) xs).

(** [xs[k]] on a list. *)
Definition py_getitem {A} (xs : list A) (k : Z) : result A :=
  if (k <? - len xs) || (len xs <=? k) then Raise IndexError
  else
    match xs !! Z.to_nat (if k <? 0 then k + len xs else k) with
    | None => Raise IndexError
    | Some x => Ok x
    end.

(** [a // b] on integers. *)
Definition py_floordiv (a b : Z) : result Z :=
  if b =? 0 then Raise ZeroDivisionError else Ok (a / b).

(** Index [k] along a numpy axis of length [size]: a negative index counts
    from the end, anything outside [-size, size) is an IndexError. *)
Definition np_axis (size : nat) (k : Z) : result nat :=
  if (0 <=? k) && (k <? Z.of_nat size) then Ok (Z.to_nat k)
  else if (- Z.of_nat size <=? k) && (k <? 0) then Ok (Z.to_nat (k + Z.of_nat size))
  else Raise IndexError.

(** [matrix[i, j]] on a 2-D array. *)
Definition np_getitem2 {A} (matrix : list (list A)) (i j : Z) : result A :=
  r ← np_axis (length matrix) i;
  match matrix !! r with
  | None => Raise IndexError
  | Some row =>
      c ← np_axis (length row) j;
      match row !! c with
      | None => Raise IndexError
      | Some x => Ok x
      end
  end.

(** An [n] by [n] array. *)
Definition square {A} (n : nat) (matrix : list (list A)) : Prop :=
  length matrix = n ∧ Forall (λ row, length row = n) matrix.

(** ** Feature extraction *)

Section FeatureExtraction.
Context {A : Type}.

(** [create_feature_data(matrix, window_length)] *)
Definition create_feature_data (matrix : list (list A)) (window_length : Z)
  : result (list A) :=
  let n := len matrix in
  for_in (py_range 0 n) (λ diag features,
    let window := window_length + diag in
    if n <? window then
      for_in (py_range 0 window_length) (λ i features,
        for_in (py_range 0 window_length) (λ j features,
          x ← np_getitem2 matrix (diag - i) (diag - j);
          Ok (features ++ [x])) features) features
    else
      for_in (py_range diag window) (λ j features,
        for_in (py_range diag window) (λ i features,
          x ← np_getitem2 matrix i j;
          Ok (features ++ [x])) features) features) [].

(** The sequence the specification describes.  [cell] reads the array at a
    position counted from the start, or from the end when negative. *)
Variable dflt : A.

Definition from_end (n k : Z) : Z := if k <? 0 then k + n else k.

Definition cell (matrix : list (list A)) (i j : Z) : A :=
  let n := len matrix in
  nth (Z.to_nat (from_end n j)) (nth (Z.to_nat (from_end n i)) matrix []) dflt.

Definition diagonal_block (matrix : list (list A)) (w d : Z) : list A :=
  let n := len matrix in
  if n <? w + d then
    flat_map (λ i, map (λ j, cell matrix (d - i) (d - j)) (py_range 0 w))
             (py_range 0 w)
  else
    flat_map (λ j, map (λ i, cell matrix i j) (py_range d (w + d)))
             (py_range d (w + d)).

Definition feature_sequence (matrix : list (list A)) (w : Z) : list A :=
  flat_map (diagonal_block matrix w) (py_range 0 (len matrix)).
End FeatureExtraction.


(** ** Epsilon estimation *)

(** *** The arithmetic

    The estimator computes with machine numbers: numpy subtracts arrays of
    int64 (wrapping around) or float64 (rounding), [np.linalg.norm] is a
    library routine, and the distortions are float64 or Python floats.  The
    functions below take that arithmetic as a parameter, so that what is
    proved of them holds whatever it rounds to; the instances after them are
    the arithmetic of float64, of int64 arrays, of Python floats, and the
    exact arithmetic of the real numbers. *)

(** The scalars a list of k-distances holds: [a - b], [a ** 2] (which may
    raise), [a > b] and [a == b]. *)
Record scalar_ops (F : Type) : Type := ScalarOps {
  f_sub : F → F → F;
  f_pow2 : F → result F;
  f_gt : F → F → bool;
  f_eq : F → F → bool
}.
Arguments ScalarOps {F} _ _ _ _.
Arguments f_sub {F} _ _ _.
Arguments f_pow2 {F} _ _.
Arguments f_gt {F} _ _ _.
Arguments f_eq {F} _ _ _.

(** numpy on arrays with elements in [E]: the difference of two elements,
    [np.linalg.norm] of a 1-D array, and the float64 scalars [F] the norm
    returns, whose square never raises. *)
Record numpy_ops (E F : Type) : Type := NumpyOps {
  np_elt_sub : E → E → E;
  np_linalg_norm : list E → F;
  np_f64_sub : F → F → F;
  np_f64_square : F → F;
  np_f64_gt : F → F → bool;
  np_f64_eq : F → F → bool
}.
Arguments NumpyOps {E F} _ _ _ _ _ _.
Arguments np_elt_sub {E F} _ _ _.
Arguments np_linalg_norm {E F} _ _.
Arguments np_f64_sub {E F} _ _ _.
Arguments np_f64_square {E F} _ _.
Arguments np_f64_gt {E F} _ _ _.
Arguments np_f64_eq {E F} _ _ _.

Definition np_scalar {E F} (np : numpy_ops E F) : scalar_ops F :=
  ScalarOps (np_f64_sub np) (λ x, Ok (np_f64_square np x))
            (np_f64_gt np) (np_f64_eq np).

(** [np.array(xs) - np.array(ys)], for two lists of one length. *)
Definition np_sub {E F} (np : numpy_ops E F) (xs ys : list E) : list E :=
  zip_with (np_elt_sub np) xs ys.

(** *** The functions *)

(** An item of a list is an object.  [max(xs)] returns one of the items, the
    first that no later item exceeds, here together with its position;
    ValueError on an empty list. *)
Fixpoint max_from {F} (ops : scalar_ops F) (best : nat * F) (i : nat)
    (xs : list F) : nat * F :=
  match xs with
  | [] => best
  | x :: rest =>
      max_from ops (if f_gt ops x (snd best) then (i, x) else best) (S i) rest
  end.

Definition py_max {F} (ops : scalar_ops F) (xs : list F) : result (nat * F) :=
  match xs with
  | [] => Raise ValueError
  | x :: rest => Ok (max_from ops (0%nat, x) 1 rest)
  end.

(** [xs.index(v)]: the first position whose item is the object [v] or equals
    it; ValueError when there is none. *)
Fixpoint index_from {F} (ops : scalar_ops F) (i : nat) (xs : list F)
    (v : nat * F) : result Z :=
  match xs with
  | [] => Raise ValueError
  | x :: rest =>
      if (i =? fst v)%nat || f_eq ops x (snd v) then Ok (Z.of_nat i)
      else index_from ops (S i) rest v
  end.

Definition py_index {F} (ops : scalar_ops F) (xs : list F) (v : nat * F)
  : result Z :=
  index_from ops 0 xs v.

(** The list [distortions] of [find_elbow_point]. *)
Definition elbow_distortions {F} (ops : scalar_ops F) (k_distances : list F)
  : result (list F) :=
  for_in (py_range 1 (len k_distances)) (λ i distortions,
    a ← py_getitem k_distances i;
    b ← py_getitem k_distances (i - 1);
    distortion ← f_pow2 ops (f_sub ops a b);
    Ok (distortions ++ [distortion])) [].

(** The value [distortion] of round [i]. *)
Definition round_gap {F} (ops : scalar_ops F) (k_distances : list F) (i : Z)
  : result F :=
  a ← py_getitem k_distances i;
  b ← py_getitem k_distances (i - 1);
  f_pow2 ops (f_sub ops a b).

(** [find_elbow_point(k_distances)]; drawing the curve computes nothing. *)
Definition find_elbow_point {F} (ops : scalar_ops F) (k_distances : list F)
  : result Z :=
  distortions ← elbow_distortions ops k_distances;
  m ← py_max ops distortions;
  elbow_point_index ← py_index ops distortions m;
  Ok (elbow_point_index + 1).

(** The value [distance] of one round of [k_distance], from [window_data]. *)
Definition window_distance {E F} (np : numpy_ops E F) (window_data : list E)
  : F :=
  np_linalg_norm np (np_sub np (py_slice window_data 0 (-1))
                               (py_slice window_data 1 (len window_data))).

(** The list [k_distances] that [k_distance] builds before it looks for the
    elbow. *)
Definition k_distance_series {E F} (np : numpy_ops E F) (features : list E)
    (window_length : Z) : result (list F) :=
  num_windows ← py_floordiv (len features) (2 * window_length);
  for_in (py_range 0 num_windows) (λ window_idx k_distances,
    let start_idx := window_idx * 2 * window_length in
    let end_idx := start_idx + 2 * window_length in
    let window_data := py_slice features start_idx end_idx in
    let distance := window_distance np window_data in
    Ok (k_distances ++ [distance])) [].

(** [k_distance(features, window_length)] *)
Definition k_distance {E F} (np : numpy_ops E F) (features : list E)
    (window_length : Z) : result Z :=
  k_distances ← k_distance_series np features window_length;
  find_elbow_point (np_scalar np) k_distances.

(** [min_pnts(min_tad_size, resolution)] *)
Definition min_pnts (min_tad_size resolution : Z) : result Z :=
  py_floordiv min_tad_size resolution.

(** The [eps] argument [main] hands to DBSCAN. *)
Definition main_eps {E F} (np : numpy_ops E F) (data : list (list E))
    (windowproportion : Z) : result Z :=
  window_length ← py_floordiv (len data) windowproportion;
  features ← create_feature_data data window_length;
  k_distance np features window_length.

(** *** The arithmetic of the machine *)

(** float64: IEEE 754 binary64, rounding to nearest. *)
Definition f64_gt (x y : float) : bool := PrimFloat.ltb y x.

(** [x.dot(x)]: the sum of the squares, here taken from left to right (the
    library may add them in another order; on an array of one element there
    is one square and nothing to add). *)
Definition f64_dot (v : list float) : float :=
  fold_left (λ acc x, PrimFloat.add acc (PrimFloat.mul x x)) v 0%float.

(** numpy on float64 arrays; an overflowing square is [inf]. *)
Definition numpy_float64 : numpy_ops float float :=
  NumpyOps PrimFloat.sub (λ v, PrimFloat.sqrt (f64_dot v))
           PrimFloat.sub (λ x, PrimFloat.mul x x) f64_gt PrimFloat.eqb.

(** int64: the integers from [-2^63] to [2^63 - 1], wrapping around. *)
Definition wrap_int64 (z : Z) : Z :=
  (z + 2 ^ 63) mod 2 ^ 64 - 2 ^ 63.

(** The float64 nearest to an integer ([astype(float)]). *)
Definition f64_of_Z (z : Z) : float :=
  SF2Prim (binary_normalize prec emax z 0 false).

(** numpy on int64 arrays: the difference wraps around, the norm is taken
    of the array converted to float64. *)
Definition numpy_int64 : numpy_ops Z float :=
  NumpyOps (λ a b, wrap_int64 (a - b))
           (λ v, PrimFloat.sqrt (f64_dot (map f64_of_Z v)))
           PrimFloat.sub (λ x, PrimFloat.mul x x) f64_gt PrimFloat.eqb.

(** Python floats: as float64, but the square of a finite number that
    overflows raises OverflowError; the square is taken as the product. *)
Definition py_float_pow2 (x : float) : result float :=
  let y := PrimFloat.mul x x in
  if PrimFloat.is_finite x && PrimFloat.is_infinity y
  then Raise OverflowError else Ok y.

Definition python_float : scalar_ops float :=
  ScalarOps PrimFloat.sub py_float_pow2 f64_gt PrimFloat.eqb.

(** *** Exact arithmetic and what the specification says *)

Open Scope R_scope.

Definition exact_gt (x y : R) : bool := if Rlt_dec y x then true else false.
Definition exact_eq (x y : R) : bool := if Req_dec_T x y then true else false.

(** Arithmetic without rounding or overflow, on the real numbers. *)
Definition exact_numpy : numpy_ops R R :=
  NumpyOps Rminus (λ v, sqrt (fold_right Rplus 0 (map (λ x, x * x) v)))
           Rminus (λ x, x ^ 2) exact_gt exact_eq.

(** The arithmetic [np] is exact on values read as real numbers by [val_e]
    and [val_f]. *)
Definition exact_arithmetic {E F} (np : numpy_ops E F)
    (val_e : E → R) (val_f : F → R) : Prop :=
  (∀ a b, val_e (np_elt_sub np a b) = val_e a - val_e b)
  ∧ (∀ v, val_f (np_linalg_norm np v)
          = sqrt (fold_right Rplus 0 (map (λ x, val_e x * val_e x) v))).

(** The comparisons of [ops] on the items of [xs] are those of their real
    values [val] (no NaN among them). *)
Definition compares_as {F} (ops : scalar_ops F) (val : F → R) (xs : list F)
  : Prop :=
  ∀ x y, x ∈ xs → y ∈ xs →
    (f_gt ops x y = true ↔ val y < val x)
    ∧ (f_eq ops x y = true ↔ val x = val y).

(** Among the first [i] items of [xs], the item [best.2] at position
    [best.1] has a largest value, and no item before it has. *)
Definition first_max_before {F} (val : F → R) (xs : list F) (i : nat)
    (best : nat * F) : Prop :=
  xs !! best.1 = Some best.2
  ∧ (best.1 < i)%nat
  ∧ (∀ j x, (j < i)%nat → xs !! j = Some x → val x <= val best.2)
  ∧ (∀ j x, (j < best.1)%nat → xs !! j = Some x → val x < val best.2).

(** No number is greater than itself. *)
Definition gt_irreflexive {F} (ops : scalar_ops F) : Prop :=
  ∀ x, f_gt ops x x = false.

(** [distortion[i]] as the specification writes it, [(k[i] - k[i-1]) ** 2]
    for [1 <= i < len], in the arithmetic [ops]; position [i - 1] of the list
    holds [distortion[i]]. *)
Definition squared_gaps {F} (ops : scalar_ops F) (k_distances : list F)
  : list (result F) :=
  zip_with (λ previous current, f_pow2 ops (f_sub ops current previous))
           k_distances (tail k_distances).

(** What the specification says of the series: the features are cut into
    consecutive chunks of a fixed size, an incomplete last chunk is dropped,
    and each chunk gives the Euclidean norm of its first difference. *)
Fixpoint chunks_fuel {A} (fuel size : nat) (xs : list A) : list (list A) :=
  match fuel with
  | O => []
  | S fuel' =>
      if (size <=? length xs)%nat
      then take size xs :: chunks_fuel fuel' size (drop size xs)
      else []
  end.

Definition chunks {A} (size : nat) (xs : list A) : list (list A) :=
  chunks_fuel (length xs) size xs.



Close Scope R_scope.

(** ** TAD quality scores *)

(** [a / b] on integers: true division. *)
Definition py_truediv (a b : Z) : result Q :=
  if b =? 0 then Raise ZeroDivisionError else Ok (inject_Z a / inject_Z b)%Q.

(** What a module-level name of the file is bound to. *)
Inductive pyobj : Type := PyModule | PyClass | PyFunction.

(** The module namespace once the file is loaded: its imports and its
    [def]s, in source order. *)
Definition module_globals : list (string * pyobj) :=
  [ ("DBSCAN", PyClass); ("pd", PyModule); ("np", PyModule);
    ("argparse", PyModule); ("os", PyModule); ("plt", PyModule);
    ("main", PyFunction); ("create_feature_data", PyFunction);
    ("k_distance", PyFunction); ("find_elbow_point", PyFunction);
    ("min_pnts", PyFunction); ("generate_tad", PyFunction);
    ("measure_of_concordance", PyFunction);
    ("modified_jaccard_index", PyFunction); ("length_quality", PyFunction);
    ("amount_identified_quality", PyFunction);
    ("interaction_quality", PyFunction); ("setup_parser", PyFunction);
    ("parse_arguments", PyFunction) ]%string.

Fixpoint lookup_name (names : list (string * pyobj)) (name : string)
  : option pyobj :=
  match names with
  | [] => None
  | (n, o) :: rest => if String.eqb n name then Some o else lookup_name rest name
  end.

(** [name[j]] for a name that is not a local of the running function and not
    a builtin: an unbound name is a NameError; the objects bound at module
    level are not subscriptable by an integer. *)
Definition global_subscript (name : string) (j : Z)
  : result (list Z) :=
  match lookup_name module_globals name with
  | None => Raise (NameError name)
  | Some _ => Raise TypeError
  end.

(** [len(set(a) & set(b))] *)
Definition common_count (a b : list Z) : Z :=
  Z.of_nat (size ((list_to_set a : gset Z) ∩ list_to_set b)).

(** [measure_of_concordance(tad_1, tad_2)] *)
Definition measure_of_concordance (tad_1 tad_2 : list (list Z)) : result Q :=
  let n_tad_1 := len tad_1 in
  let n_tad_2 := len tad_2 in
  sum_term ← for_in (py_range 0 n_tad_1) (λ i sum_term,
    for_in (py_range 0 n_tad_2) (λ j sum_term,
      a ← py_getitem tad_1 i;
      b ← global_subscript "B" j;
      let common_bins := common_count a b in
      a' ← py_getitem tad_1 i;
      b' ← py_getitem tad_2 j;
      term ← py_truediv (common_bins ^ 2) (len a' * len b' - 1);
      Ok (sum_term + term)%Q) sum_term) 0%Q;
  factor ← py_truediv 1 (n_tad_1 * n_tad_2 - 1);
  let moc := (factor * sum_term)%Q in
  Ok moc.

(** The score the specification defines, with the TADs of the second input
    taken from [tad_2]. *)
Definition moc_term (a b : list Z) : Q :=
  (inject_Z (common_count a b ^ 2) / inject_Z (len a * len b - 1))%Q.

Definition moc_sum (tad_1 tad_2 : list (list Z)) : Q :=
  fold_right Qplus 0%Q
    (flat_map (λ a, map (λ b, moc_term a b) tad_2) tad_1).

Definition moc_spec (tad_1 tad_2 : list (list Z)) : Q :=
  ((1 / inject_Z (len tad_1 * len tad_2 - 1)) * moc_sum tad_1 tad_2)%Q.

(** The two sets the loop of [modified_jaccard_index] updates:
    [intersecting_set] and [double_counted_boundaries]. *)
Record jaccard_state : Type := JaccardState {
  intersecting_set : gset Z;
  double_counted_boundaries : gset Z
}.

(** The body of the inner loop, for one [offset]. *)
Definition visit_offset (tad_2 : gset Z) (boundary : Z)
    (st : jaccard_state) (offset : Z) : jaccard_state :=
  let shifted_boundary := boundary + offset in
  if decide (shifted_boundary ∈ tad_2) then
    if decide (shifted_boundary ∉ double_counted_boundaries st) then
      JaccardState ({[shifted_boundary]} ∪ intersecting_set st)
                   ({[shifted_boundary]} ∪ double_counted_boundaries st)
    else st
  else st.

(** The body of the outer loop, for one [boundary]. *)
Definition visit_boundary (tad_2 : gset Z) (st : jaccard_state) (boundary : Z)
  : jaccard_state :=
  foldl (visit_offset tad_2 boundary) st (py_range (-1) 2).

(** The loops, run over the boundaries of the first set in a given order. *)
Definition jaccard_loop (order : list Z) (tad_2 : gset Z) : jaccard_state :=
  foldl (visit_boundary tad_2) (JaccardState ∅ ∅) order.

(** The last two statements: the score from the three sizes. *)
Definition jaccard_score (n_1 n_2 n_matched : Z) : Q :=
  let union_size := n_1 + n_2 - n_matched in
  if union_size =? 0 then 0%Q
  else (inject_Z n_matched / inject_Z union_size)%Q.

(** [modified_jaccard_index(tad_1, tad_2)]; a set is iterated in the order of
    its [elements]. *)
Definition modified_jaccard_index (tad_1 tad_2 : gset Z) : Q :=
  let st := jaccard_loop (elements tad_1) tad_2 in
  jaccard_score (Z.of_nat (size tad_1)) (Z.of_nat (size tad_2))
                (Z.of_nat (size (intersecting_set st))).

(** The boundaries of the second set within one bin of a boundary of the
    first. *)
Definition matched_set (tad_1 tad_2 : gset Z) : gset Z :=
  filter (λ x, x - 1 ∈ tad_1 ∨ x ∈ tad_1 ∨ x + 1 ∈ tad_1) tad_2.

(** * Properties *)

(** ** Loops and ranges *)

Lemma bind_Ok {A B} (f : A → result B) (a : A) : (Ok a ≫= f) = f a.
Proof. reflexivity. Qed.

Lemma elem_of_py_range (x start stop : Z) :
  x ∈ py_range start stop ↔ start ≤ x < stop.
Proof. unfold py_range. rewrite elem_of_seqZ. lia. Qed.

Lemma length_py_range (start stop : Z) :
  length (py_range start stop) = Z.to_nat (stop - start).
Proof. unfold py_range. apply length_seqZ. Qed.

(** A loop whose body only appends collects what each round appends. *)
Lemma for_in_collect {X A} (xs : list X) (body : X → list A → result (list A))
    (g : X → list A) :
  (∀ x acc, x ∈ xs → body x acc = Ok (acc ++ g x)) →
  ∀ acc, for_in xs body acc = Ok (acc ++ flat_map g xs).
Proof.
  induction xs as [|x xs IH]; intros Hbody acc; simpl.
  - by rewrite app_nil_r.
  - rewrite Hbody by left. rewrite bind_Ok.
    rewrite IH by (intros; apply Hbody; by right).
    by rewrite app_assoc.
Qed.

Lemma flat_map_singleton {X A} (f : X → A) (xs : list X) :
  flat_map (λ x, [f x]) xs = map f xs.
Proof. induction xs as [|x xs IH]; simpl; congruence. Qed.

Lemma length_flat_map_const {X A} (g : X → list A) (xs : list X) (k : nat) :
  (∀ x, x ∈ xs → length (g x) = k) →
  length (flat_map g xs) = (length xs * k)%nat.
Proof.
  induction xs as [|x xs IH]; intros Hg; simpl; [done|].
  rewrite length_app, Hg by left.
  rewrite IH by (intros; apply Hg; by right). lia.
Qed.

(** ** Feature extraction *)

Section FeatureExtractionFacts.
Context {A : Type} (dflt : A).
Implicit Types matrix : list (list A).

Lemma np_axis_in_range (size : nat) (k : Z) :
  - Z.of_nat size ≤ k < Z.of_nat size →
  np_axis size k = Ok (Z.to_nat (from_end (Z.of_nat size) k)).
Proof.
  intros Hk. unfold np_axis, from_end.
  destruct (Z.ltb_spec k 0) as [Hneg|Hpos].
  - replace (0 <=? k) with false by (symmetry; apply Z.leb_gt; lia).
    replace (- Z.of_nat size <=? k) with true by (symmetry; apply Z.leb_le; lia).
    done.
  - replace (0 <=? k) with true by (symmetry; apply Z.leb_le; lia).
    replace (k <? Z.of_nat size) with true by (symmetry; apply Z.ltb_lt; lia).
    done.
Qed.

Lemma np_axis_out_of_range (size : nat) (k : Z) :
  k < - Z.of_nat size ∨ Z.of_nat size ≤ k →
  np_axis size k = Raise IndexError.
Proof.
  intros Hk. unfold np_axis.
  destruct (Z.leb_spec 0 k), (Z.ltb_spec k (Z.of_nat size)),
    (Z.leb_spec (- Z.of_nat size) k), (Z.ltb_spec k 0); simpl; try done; lia.
Qed.

Lemma np_getitem2_square (n : nat) matrix (i j : Z) :
  square n matrix →
  - Z.of_nat n ≤ i < Z.of_nat n →
  - Z.of_nat n ≤ j < Z.of_nat n →
  np_getitem2 matrix i j = Ok (cell dflt matrix i j).
Proof.
  intros [Hlen Hrows] Hi Hj. unfold np_getitem2, cell, len.
  rewrite Hlen, np_axis_in_range by done. rewrite bind_Ok.
  set (r := Z.to_nat (from_end (Z.of_nat n) i)).
  assert (r < n)%nat as Hr by (unfold r, from_end; destruct (i <? 0) eqn:E; lia).
  destruct (lookup_lt_is_Some_2 matrix r) as [row Hrow]; [lia|].
  rewrite Hrow.
  assert (length row = n) as Hrowlen.
  { rewrite Forall_lookup in Hrows. by apply (Hrows r). }
  rewrite Hrowlen, np_axis_in_range by done. rewrite bind_Ok.
  set (c := Z.to_nat (from_end (Z.of_nat n) j)).
  assert (c < n)%nat as Hc by (unfold c, from_end; destruct (j <? 0) eqn:E; lia).
  destruct (lookup_lt_is_Some_2 row c) as [x Hx]; [lia|].
  rewrite Hx. f_equal.
  rewrite (nth_lookup_Some matrix r [] row) by done.
  by rewrite (nth_lookup_Some row c dflt x).
Qed.

Lemma length_diagonal_block matrix (w d : Z) :
  0 ≤ w → length (diagonal_block dflt matrix w d) = Z.to_nat (w * w).
Proof.
  intros Hw. unfold diagonal_block.
  destruct (len matrix <? w + d).
  - rewrite (length_flat_map_const _ _ (Z.to_nat w)).
    + rewrite length_py_range. lia.
    + intros. rewrite length_map, length_py_range. lia.
  - rewrite (length_flat_map_const _ _ (Z.to_nat w)).
    + rewrite length_py_range. lia.
    + intros. rewrite length_map, length_py_range. lia.
Qed.

Lemma length_feature_sequence matrix (w : Z) :
  0 ≤ w →
  len (feature_sequence dflt matrix w) = len matrix * (w * w).
Proof.
  intros Hw. unfold feature_sequence, len.
  rewrite (length_flat_map_const _ _ (Z.to_nat (w * w))).
  - rewrite length_py_range. unfold len. nia.
  - intros. by apply length_diagonal_block.
Qed.

(** One round of the outer loop appends the block of its diagonal. *)
Lemma create_feature_data_in_bounds (n : nat) matrix (w : Z) :
  square n matrix → 1 ≤ w ≤ Z.of_nat n + 1 →
  create_feature_data matrix w = Ok (feature_sequence dflt matrix w).
Proof.
  intros Hsq Hw. pose proof Hsq as [Hlen _].
  unfold create_feature_data, feature_sequence.
  rewrite (for_in_collect _ _ (diagonal_block dflt matrix w)); [done|].
  intros diag acc Hdiag. apply elem_of_py_range in Hdiag.
  unfold diagonal_block, len in *. rewrite Hlen in *.
  destruct (Z.ltb_spec (Z.of_nat n) (w + diag)) as [Hout|Hin].
  - apply for_in_collect. intros i acc1 Hi. apply elem_of_py_range in Hi.
    rewrite (for_in_collect _ _ (λ j, [cell dflt matrix (diag - i) (diag - j)])).
    { by rewrite flat_map_singleton. }
    intros j acc2 Hj. apply elem_of_py_range in Hj.
    by rewrite (np_getitem2_square n) by (done || lia).
  - apply for_in_collect. intros j acc1 Hj. apply elem_of_py_range in Hj.
    rewrite (for_in_collect _ _ (λ i, [cell dflt matrix i j])).
    { by rewrite flat_map_singleton. }
    intros i acc2 Hi. apply elem_of_py_range in Hi.
    by rewrite (np_getitem2_square n) by (done || lia).
Qed.
End FeatureExtractionFacts.

Lemma py_range_cons (start stop : Z) :
  start < stop → py_range start stop = start :: py_range (start + 1) stop.
Proof.
  intros H. unfold py_range. rewrite seqZ_cons by lia.
  f_equal. f_equal; lia.
Qed.

Lemma py_range_split (start mid stop : Z) :
  start ≤ mid ≤ stop →
  py_range start stop = py_range start mid ++ py_range mid stop.
Proof.
  intros H. unfold py_range.
  replace (stop - start) with ((mid - start) + (stop - mid)) by lia.
  rewrite seqZ_app by lia. do 2 f_equal; lia.
Qed.

(** A loop stops at the first round that raises. *)
Lemma for_in_raise {X S} (xs ys : list X) (x : X) (body : X → S → result S)
    (e : exn) :
  (∀ y s, y ∈ xs → returns (body y s)) →
  (∀ s, body x s = Raise e) →
  ∀ s, for_in (xs ++ x :: ys) body s = Raise e.
Proof.
  induction xs as [|y xs IH]; intros Hxs Hx s; simpl.
  - by rewrite Hx.
  - destruct (Hxs y s) as [s' ->]; [by left|]. rewrite bind_Ok.
    apply IH; [|done]. intros; apply Hxs; by right.
Qed.

(** A window longer than [n + 1] reaches behind the first row already on
    the first diagonal. *)
Lemma create_feature_data_window_too_long {A} (n : nat) (matrix : list (list A))
    (w : Z) :
  square n matrix → (1 ≤ n)%nat → Z.of_nat n + 2 ≤ w →
  create_feature_data matrix w = Raise IndexError.
Proof.
  intros [Hlen Hrows] Hn Hw.
  destruct matrix as [|row rest]; [simpl in Hlen; lia|].
  apply Forall_cons in Hrows as [Hrow _].
  assert (∀ features,
    for_in (py_range 0 w) (λ j features,
      x ← np_getitem2 (row :: rest) (0 - 0) (0 - j);
      Ok (features ++ [x])) features = Raise IndexError) as Hinner.
  { rewrite (py_range_split 0 (Z.of_nat n + 1) w) by lia.
    rewrite (py_range_cons (Z.of_nat n + 1) w) by lia.
    apply for_in_raise.
    - intros j s Hj. apply elem_of_py_range in Hj.
      unfold np_getitem2. rewrite Hlen.
      rewrite np_axis_in_range by lia. rewrite bind_Ok.
      replace (Z.to_nat _) with 0%nat by (unfold from_end; simpl; lia).
      simpl. rewrite Hrow, np_axis_in_range by lia. rewrite bind_Ok.
      set (c := Z.to_nat _).
      destruct (lookup_lt_is_Some_2 row c) as [x ->].
      + unfold c, from_end. destruct (0 - j <? 0) eqn:E; lia.
      + by eexists.
    - intros s. unfold np_getitem2. rewrite Hlen.
      rewrite np_axis_in_range by lia. rewrite bind_Ok.
      replace (Z.to_nat _) with 0%nat by (unfold from_end; simpl; lia).
      simpl. rewrite Hrow, np_axis_out_of_range by lia. done. }
  unfold create_feature_data, len. rewrite Hlen.
  rewrite (py_range_cons 0 (Z.of_nat n)) by lia. simpl for_in.
  replace (Z.of_nat n <? w + 0) with true by (symmetry; apply Z.ltb_lt; lia).
  rewrite (py_range_cons 0 w) at 1 by lia. simpl for_in.
  by rewrite Hinner.
Qed.

(** C1 (as amended).  For a square [n] by [n] array with [n >= 1] and a window
    length between 1 and [n + 1], [create_feature_data] returns exactly the
    sequence of the specification: diagonal by diagonal, a block read
    backwards ([i] outer, [j] inner) when the window passes the edge, a block
    read forwards (columns outer, rows inner) otherwise.  Every diagonal
    gives [w * w] values and the whole sequence has [n * w * w]. *)
Theorem create_feature_data_spec {A} (dflt : A) (n : nat)
    (matrix : list (list A)) (w : Z) :
  square n matrix → (1 ≤ n)%nat → 1 ≤ w ≤ Z.of_nat n + 1 →
  create_feature_data matrix w = Ok (feature_sequence dflt matrix w)
  ∧ (∀ d, 0 ≤ d < Z.of_nat n → len (diagonal_block dflt matrix w d) = w * w)
  ∧ len (feature_sequence dflt matrix w) = Z.of_nat n * (w * w).
Proof.
  intros Hsq Hn Hw. split; [|split].
  - by apply (create_feature_data_in_bounds dflt n).
  - intros d _. unfold len. rewrite length_diagonal_block by lia. nia.
  - rewrite length_feature_sequence by lia. destruct Hsq as [Hlen _].
    unfold len. by rewrite Hlen.
Qed.

Lemma create_feature_data_spec_witness :
  create_feature_data [[1; 2; 3]; [4; 5; 6]; [7; 8; 9]] 2
    = Ok (feature_sequence 0 [[1; 2; 3]; [4; 5; 6]; [7; 8; 9]] 2)
  ∧ (∀ d, 0 ≤ d < 3 →
       len (diagonal_block 0 [[1; 2; 3]; [4; 5; 6]; [7; 8; 9]] 2 d) = 2 * 2)
  ∧ len (feature_sequence 0 [[1; 2; 3]; [4; 5; 6]; [7; 8; 9]] 2) = 3 * (2 * 2).
Proof.
  apply (create_feature_data_spec 0 3 [[1; 2; 3]; [4; 5; 6]; [7; 8; 9]] 2).
  - split; [reflexivity | repeat constructor].
  - lia.
  - lia.
Defined.

(** C1 as stated fails: on the 1 by 1 array [[5]] with window length 3 the
    call raises IndexError and returns no sequence at all. *)
Lemma create_feature_data_any_window_counterexample :
  square 1 [[5]] ∧ 1 ≤ 3
  ∧ create_feature_data [[5]] 3 = Raise IndexError
  ∧ create_feature_data [[5]] 3 ≠ Ok (feature_sequence 0 [[5]] 3).
Proof.
  split; [split; [reflexivity | repeat constructor]|].
  split; [lia|]. split; [reflexivity | discriminate].
Qed.

Example create_feature_data_3x3 :
  create_feature_data [[1; 2; 3]; [4; 5; 6]; [7; 8; 9]] 2
  = Ok [1; 4; 2; 5; 5; 8; 6; 9; 9; 8; 6; 5].
Proof. reflexivity. Qed.

(** The 4 by 4 case of the specification: 16 values, the last diagonal read
    backwards from the corner. *)
Example create_feature_data_4x4 :
  create_feature_data
    [[11; 12; 13; 14]; [21; 22; 23; 24]; [31; 32; 33; 34]; [41; 42; 43; 44]] 2
  = Ok [11; 21; 12; 22; 22; 32; 23; 33; 33; 43; 34; 44; 44; 43; 34; 33].
Proof. reflexivity. Qed.

(** ** The elbow *)

Lemma py_getitem_lookup {A} (xs : list A) (k : Z) (x : A) :
  0 ≤ k → xs !! Z.to_nat k = Some x → py_getitem xs k = Ok x.
Proof.
  intros Hk Hx. apply lookup_lt_Some in Hx as Hlt.
  unfold py_getitem, len.
  replace (k <? - Z.of_nat (length xs)) with false
    by (symmetry; apply Z.ltb_ge; lia).
  replace (Z.of_nat (length xs) <=? k) with false
    by (symmetry; apply Z.leb_gt; lia).
  replace (k <? 0) with false by (symmetry; apply Z.ltb_ge; lia).
  simpl. by rewrite Hx.
Qed.

(** Two loops with the same rounds are the same loop. *)
Lemma for_in_ext {X S} (xs : list X) (body body' : X → S → result S) :
  (∀ x s, x ∈ xs → body x s = body' x s) →
  ∀ s, for_in xs body s = for_in xs body' s.
Proof.
  induction xs as [|x xs IH]; intros Hbody s; simpl; [done|].
  rewrite Hbody by left. destruct (body' x s) as [s'|e]; [|done].
  rewrite !bind_Ok. apply IH. intros; apply Hbody; by right.
Qed.

(** A loop that appends one computed value per round returns the values,
    unless one of the computations raises. *)
Lemma for_in_results_Ok {X A} (g : X → result A) (xs : list X) (ds : list A) :
  Forall2 (λ x d, g x = Ok d) xs ds →
  ∀ acc, for_in xs (λ x acc, d ← g x; Ok (acc ++ [d])) acc = Ok (acc ++ ds).
Proof.
  induction 1 as [|x d xs ds Hx _ IH]; intros acc; simpl.
  - by rewrite app_nil_r.
  - rewrite Hx, !bind_Ok, IH. by rewrite <- app_assoc.
Qed.

Lemma for_in_results_inv {X A} (g : X → result A) (xs : list X) :
  ∀ acc out,
    for_in xs (λ x acc, d ← g x; Ok (acc ++ [d])) acc = Ok out →
    ∃ ds, out = acc ++ ds ∧ Forall2 (λ x d, g x = Ok d) xs ds.
Proof.
  induction xs as [|x xs IH]; intros acc out Hrun; simpl in Hrun.
  - injection Hrun as <-. exists []. by rewrite app_nil_r.
  - destruct (g x) as [d|e] eqn:Hx; [|done]. rewrite !bind_Ok in Hrun.
    destruct (IH _ _ Hrun) as (ds & -> & Hds).
    exists (d :: ds). split; [by rewrite <- app_assoc|]. by constructor.
Qed.

Lemma for_in_results_raise {X A} (g : X → result A) (xs : list X) (x : X)
    (e : exn) :
  x ∈ xs → g x = Raise e →
  ∀ acc, ∃ e', for_in xs (λ x acc, d ← g x; Ok (acc ++ [d])) acc = Raise e'.
Proof.
  induction xs as [|y xs IH]; intros Hx Hg acc; simpl.
  - by apply elem_of_nil in Hx.
  - destruct (g y) as [d|e1] eqn:Hy; [|by exists e1]. rewrite !bind_Ok.
    apply elem_of_cons in Hx as [->|Hx]; [congruence|]. by apply IH.
Qed.

Section ElbowFacts.
Context {F : Type} (ops : scalar_ops F).
Implicit Types (k_distances ds : list F).

Lemma round_gaps k_distances :
  map (round_gap ops k_distances) (py_range 1 (len k_distances))
  = squared_gaps ops k_distances.
Proof.
  apply list_eq. intros j. unfold squared_gaps, py_range.
  change (map ?f ?l) with (f <$> l).
  rewrite list_lookup_fmap, lookup_zip_with, lookup_tail.
  destruct (decide (Z.of_nat j < len k_distances - 1)) as [Hj|Hj].
  - rewrite lookup_seqZ_lt by done. unfold len in Hj. simpl.
    destruct (lookup_lt_is_Some_2 k_distances j) as [b Hb]; [lia|].
    destruct (lookup_lt_is_Some_2 k_distances (S j)) as [a Ha]; [lia|].
    rewrite Hb, Ha. simpl. f_equal. unfold round_gap.
    assert (py_getitem k_distances (1 + Z.of_nat j) = Ok a) as ->.
    { apply py_getitem_lookup; [lia|].
      by replace (Z.to_nat (1 + Z.of_nat j)) with (S j) by lia. }
    assert (py_getitem k_distances (1 + Z.of_nat j - 1) = Ok b) as ->.
    { apply py_getitem_lookup; [lia|].
      by replace (Z.to_nat (1 + Z.of_nat j - 1)) with j by lia. }
    done.
  - rewrite lookup_seqZ_ge by lia. simpl.
    destruct (k_distances !! j) as [b|]; [|done]. simpl.
    rewrite (lookup_ge_None_2 k_distances (S j)); [done|].
    unfold len in Hj. lia.
Qed.

Lemma elbow_distortions_rounds k_distances :
  elbow_distortions ops k_distances
  = for_in (py_range 1 (len k_distances))
      (λ i acc, d ← round_gap ops k_distances i; Ok (acc ++ [d])) [].
Proof.
  unfold elbow_distortions. apply for_in_ext. intros i acc _.
  unfold round_gap.
  destruct (py_getitem k_distances i) as [a|]; [|done]. rewrite !bind_Ok.
  by destruct (py_getitem k_distances (i - 1)) as [b|].
Qed.

(** [distortions] holds the squared gaps, when none of them raises. *)
Lemma elbow_distortions_Ok k_distances ds :
  elbow_distortions ops k_distances = Ok ds ↔
  Forall2 (λ gap d, gap = Ok d) (squared_gaps ops k_distances) ds.
Proof.
  rewrite elbow_distortions_rounds, <- round_gaps.
  change (map ?f ?l) with (f <$> l). rewrite Forall2_fmap_l. split.
  - intros Hrun. apply for_in_results_inv in Hrun as (ds' & -> & Hds). done.
  - intros Hds. by rewrite (for_in_results_Ok _ _ ds).
Qed.

Lemma elbow_distortions_raise k_distances gap (e : exn) :
  gap ∈ squared_gaps ops k_distances → gap = Raise e →
  ∃ e', elbow_distortions ops k_distances = Raise e'.
Proof.
  intros Hgap ->. rewrite <- round_gaps in Hgap.
  apply list_elem_of_In, in_map_iff in Hgap as (i & Hi & Hin).
  rewrite elbow_distortions_rounds.
  apply (for_in_results_raise _ _ i e); [by apply list_elem_of_In | done].
Qed.

Lemma length_squared_gaps k_distances :
  length (squared_gaps ops k_distances) = (length k_distances - 1)%nat.
Proof.
  unfold squared_gaps. rewrite length_zip_with.
  destruct k_distances as [|x rest]; [done|].
  change (tail (x :: rest)) with rest. change (length (x :: rest)) with (S (length rest)).
  lia.
Qed.

Lemma length_elbow_distortions k_distances ds :
  elbow_distortions ops k_distances = Ok ds →
  length ds = (length k_distances - 1)%nat.
Proof.
  intros Hds. apply elbow_distortions_Ok, Forall2_length in Hds.
  by rewrite <- Hds, length_squared_gaps.
Qed.

(** [max] returns an item of the list with its position. *)
Lemma max_from_item ds :
  ∀ rest (i : nat) (best : nat * F),
    drop i ds = rest → ds !! best.1 = Some best.2 →
    ds !! (max_from ops best i rest).1 = Some (max_from ops best i rest).2.
Proof.
  induction rest as [|x rest IH]; intros i best Hdrop Hbest; simpl; [done|].
  assert (ds !! i = Some x) as Hx.
  { rewrite <- (Nat.add_0_r i), <- lookup_drop. by rewrite Hdrop. }
  apply IH.
  - rewrite (drop_S _ x) in Hdrop by done. by injection Hdrop.
  - by destruct (f_gt ops x best.2).
Qed.

(** [index] of an item of the list returns a position, at or before the
    item's own; no earlier item equals it. *)
Lemma index_from_item ds (p : nat) (m : F) :
  ds !! p = Some m →
  ∀ rest (i : nat),
    drop i ds = rest → (i ≤ p)%nat →
    ∃ j : nat, index_from ops i rest (p, m) = Ok (Z.of_nat j)
      ∧ (i ≤ j ≤ p)%nat
      ∧ (j = p ∨ ∃ x, ds !! j = Some x ∧ f_eq ops x m = true)
      ∧ ∀ j' x, (i ≤ j' < j)%nat → ds !! j' = Some x → f_eq ops x m = false.
Proof.
  intros Hm. induction rest as [|x rest IH]; intros i Hdrop Hi.
  - apply lookup_lt_Some in Hm.
    assert (length (drop i ds) = 0%nat) as H0 by by rewrite Hdrop.
    rewrite length_drop in H0. lia.
  - assert (ds !! i = Some x) as Hx.
    { rewrite <- (Nat.add_0_r i), <- lookup_drop. by rewrite Hdrop. }
    simpl.
    destruct ((i =? p)%nat || f_eq ops x m) eqn:Htest.
    + exists i. split; [done|]. split; [lia|]. split; [|intros; lia].
      apply orb_true_iff in Htest as [Hip|Heq].
      * left. by apply Nat.eqb_eq.
      * right. by exists x.
    + apply orb_false_iff in Htest as [Hip Hne].
      apply Nat.eqb_neq in Hip.
      destruct (IH (S i)) as (j & Hj & Hrange & Hfound & Hfirst).
      * rewrite (drop_S _ x) in Hdrop by done. by injection Hdrop.
      * lia.
      * exists j. split; [done|]. split; [lia|]. split; [done|].
        intros j' y Hj' Hy. destruct (decide (j' = i)) as [->|Hne'].
        -- rewrite Hx in Hy. by injection Hy as <-.
        -- apply (Hfirst j'); [lia | done].
Qed.

(** With at least one distortion, the elbow is found inside the list. *)
Lemma elbow_in_range ds :
  ds ≠ [] →
  ∃ (p j : nat) (m : F),
    py_max ops ds = Ok (p, m) ∧ ds !! p = Some m
    ∧ py_index ops ds (p, m) = Ok (Z.of_nat j) ∧ (j ≤ p < length ds)%nat
    ∧ (j = p ∨ ∃ x, ds !! j = Some x ∧ f_eq ops x m = true)
    ∧ ∀ j' x, (j' < j)%nat → ds !! j' = Some x → f_eq ops x m = false.
Proof.
  intros Hne. destruct ds as [|d rest]; [done|].
  pose proof (max_from_item (d :: rest) rest 1 (0%nat, d) eq_refl eq_refl)
    as Hitem.
  destruct (max_from ops (0%nat, d) 1 rest) as [p m] eqn:Hmax. simpl in Hitem.
  destruct (index_from_item (d :: rest) p m Hitem (d :: rest) 0 eq_refl)
    as (j & Hj & Hrange & Hfound & Hfirst); [lia|].
  exists p, j, m. unfold py_max, py_index. rewrite Hmax.
  apply lookup_lt_Some in Hitem as Hlt.
  repeat split; try done; try lia.
  intros j' x Hj'. apply Hfirst. lia.
Qed.

(** With fewer than two k-distances there is no distortion, and [max] of
    the empty list raises. *)
Lemma find_elbow_point_short k_distances :
  len k_distances < 2 → find_elbow_point ops k_distances = Raise ValueError.
Proof.
  intros Hlen. unfold find_elbow_point, elbow_distortions.
  unfold py_range. by rewrite seqZ_nil by lia.
Qed.

(** With two or more, and no squared gap that raises, the elbow is a
    position of the list. *)
Lemma find_elbow_point_found k_distances ds :
  2 ≤ len k_distances → elbow_distortions ops k_distances = Ok ds →
  ∃ (p j : nat) (m : F),
    find_elbow_point ops k_distances = Ok (Z.of_nat j + 1)
    ∧ py_max ops ds = Ok (p, m) ∧ ds !! p = Some m
    ∧ (j ≤ p)%nat ∧ Z.of_nat p < len k_distances - 1
    ∧ (j = p ∨ ∃ x, ds !! j = Some x ∧ f_eq ops x m = true)
    ∧ ∀ j' x, (j' < j)%nat → ds !! j' = Some x → f_eq ops x m = false.
Proof.
  intros Hlen Hds. pose proof (length_elbow_distortions _ _ Hds) as Hlength.
  destruct (elbow_in_range ds) as (p & j & m & Hmax & Hm & Hidx & Hr & Hf & Hn).
  { intros ->. unfold len in Hlen. simpl in Hlength. lia. }
  exists p, j, m. unfold find_elbow_point.
  rewrite Hds, bind_Ok, Hmax, bind_Ok, Hidx, bind_Ok.
  unfold len in *. repeat split; try done; lia.
Qed.

Lemma find_elbow_point_raises k_distances gap (e : exn) :
  gap ∈ squared_gaps ops k_distances → gap = Raise e →
  ∃ e', find_elbow_point ops k_distances = Raise e'.
Proof.
  intros Hgap He.
  destruct (elbow_distortions_raise _ _ _ Hgap He) as [e' He'].
  exists e'. unfold find_elbow_point. by rewrite He'.
Qed.
End ElbowFacts.

Section ElbowOrder.
Context {F : Type} (ops : scalar_ops F).
Implicit Types (k_distances ds : list F).
Local Open Scope R_scope.

(** Where the comparisons are those of real values, [max] returns the first
    item of largest value. *)
Lemma max_from_first_max (val : F → R) ds :
  compares_as ops val ds →
  ∀ rest (i : nat) (best : nat * F),
    drop i ds = rest → first_max_before val ds i best →
    first_max_before val ds (i + length rest) (max_from ops best i rest).
Proof.
  intros Hcmp. induction rest as [|x rest IH]; intros i best Hdrop Hbest.
  - simpl. by rewrite Nat.add_0_r.
  - assert (ds !! i = Some x) as Hx.
    { rewrite <- (Nat.add_0_r i), <- lookup_drop. by rewrite Hdrop. }
    simpl. replace (i + S (length rest))%nat with (S i + length rest)%nat by lia.
    apply IH.
    { rewrite (drop_S _ x) in Hdrop by done. by injection Hdrop. }
    destruct Hbest as (Hm & Hp & Hmax & Hfirst).
    destruct (Hcmp x best.2) as [Hgt _];
      [by eapply list_elem_of_lookup_2 | by eapply list_elem_of_lookup_2 |].
    destruct (f_gt ops x best.2) eqn:Htest.
    + assert (val best.2 < val x) as Hlt by by apply Hgt.
      repeat split; simpl; [done | lia | |].
      * intros j y Hj Hy. destruct (decide (j = i)) as [->|Hne].
        -- rewrite Hx in Hy. injection Hy as <-. lra.
        -- specialize (Hmax j y ltac:(lia) Hy). lra.
      * intros j y Hj Hy. specialize (Hmax j y Hj Hy). lra.
    + assert (¬ val best.2 < val x) as Hge.
      { intros Hlt. apply Hgt in Hlt. congruence. }
      repeat split; [done | lia | | done].
      intros j y Hj Hy. destruct (decide (j = i)) as [->|Hne].
      * rewrite Hx in Hy. injection Hy as <-. lra.
      * apply (Hmax j y); [lia | done].
Qed.

Lemma py_max_first_max (val : F → R) ds (best : nat * F) :
  compares_as ops val ds → py_max ops ds = Ok best →
  first_max_before val ds (length ds) best.
Proof.
  intros Hcmp Hmax. destruct ds as [|d rest]; [done|].
  injection Hmax as <-.
  apply (max_from_first_max val (d :: rest) Hcmp rest 1 (0%nat, d) eq_refl).
  repeat split; simpl; [lia| |intros; lia].
  intros [|j] x Hj Hx; [|lia]. injection Hx as <-. lra.
Qed.

(** On a constant list [max] keeps the first item. *)
Lemma max_from_constant (d : F) (rest : list F) (i p : nat) :
  f_gt ops d d = false → Forall (λ x, x = d) rest →
  max_from ops (p, d) i rest = (p, d).
Proof.
  intros Hirr Hrest. revert i.
  induction Hrest as [|x rest -> _ IH]; intros i; simpl; [done|].
  rewrite Hirr. apply IH.
Qed.

Lemma squared_gaps_constant k_distances (c : F) :
  Forall (λ x, x = c) k_distances →
  Forall (λ gap, gap = f_pow2 ops (f_sub ops c c)) (squared_gaps ops k_distances).
Proof.
  intros Hconst. unfold squared_gaps.
  induction Hconst as [|x rest -> Hrest IH]; [done|].
  destruct Hrest as [|y rest' -> Hrest']; [done|].
  simpl. constructor; [done|]. apply IH.
Qed.

Lemma find_elbow_point_constant k_distances ds (c : F) :
  (2 ≤ len k_distances)%Z → elbow_distortions ops k_distances = Ok ds →
  Forall (λ x, x = c) k_distances → gt_irreflexive ops →
  find_elbow_point ops k_distances = Ok 1%Z.
Proof.
  intros Hlen Hds Hconst Hirr.
  pose proof (length_elbow_distortions _ _ _ Hds) as Hlength.
  apply elbow_distortions_Ok in Hds as Hgaps.
  pose proof (squared_gaps_constant _ _ Hconst) as Hsame.
  destruct ds as [|d rest]; [unfold len in Hlen; simpl in Hlength; lia|].
  assert (Forall (λ x, x = d) rest) as Hrest.
  { assert (Forall (λ x, x = d) (d :: rest)) as Hall.
    { destruct (squared_gaps ops k_distances) as [|gap gaps]; [by inversion Hgaps|].
      apply Forall_cons in Hsame as [Hgap Hsame].
      apply Forall2_cons in Hgaps as [Hd Hgaps]. rewrite Hgap in Hd.
      constructor; [done|].
      clear -Hsame Hgaps Hd. revert rest Hgaps.
      induction Hsame as [|g gaps Hg _ IH]; intros rest Hgaps.
      - by inversion Hgaps.
      - inversion Hgaps as [|? y ? rest' Hy Hrest']; subst.
        constructor; [congruence|]. by apply IH. }
    by apply Forall_cons in Hall as [_ Hall]. }
  unfold find_elbow_point. rewrite Hds, bind_Ok. unfold py_max.
  rewrite max_from_constant by (done || apply Hirr).
  rewrite bind_Ok. unfold py_index. by simpl.
Qed.
End ElbowOrder.

(** The arithmetic of the machine and exact arithmetic have the properties
    the results below ask for. *)
Lemma f64_gt_irreflexive (x : float) : f64_gt x x = false.
Proof.
  unfold f64_gt. rewrite ltb_spec. unfold SFltb.
  destruct (Prim2SF x) as [s|s| |s m e]; simpl; try done.
  - by destruct s.
  - destruct s; rewrite Z.compare_refl, ?Pos.compare_refl; simpl;
      by rewrite ?Pos.compare_refl.
Qed.

Lemma python_float_gt_irreflexive : gt_irreflexive python_float.
Proof. intros x. apply f64_gt_irreflexive. Qed.

Lemma numpy_float64_gt_irreflexive : gt_irreflexive (np_scalar numpy_float64).
Proof. intros x. apply f64_gt_irreflexive. Qed.

Lemma numpy_int64_gt_irreflexive : gt_irreflexive (np_scalar numpy_int64).
Proof. intros x. apply f64_gt_irreflexive. Qed.

Lemma exact_numpy_compares (xs : list R) :
  compares_as (np_scalar exact_numpy) (λ x, x) xs.
Proof.
  intros x y _ _. simpl. unfold exact_gt, exact_eq. split.
  - destruct (Rlt_dec y x); split; (done || lra).
  - destruct (Req_dec_T x y); split; (done || lra).
Qed.

Lemma exact_numpy_gt_irreflexive : gt_irreflexive (np_scalar exact_numpy).
Proof.
  intros x. simpl. unfold exact_gt. destruct (Rlt_dec x x); [lra | done].
Qed.

Lemma exact_numpy_exact : exact_arithmetic exact_numpy (λ x, x) (λ x, x).
Proof. by split. Qed.

Section ElbowResults.
Context {F : Type} (ops : scalar_ops F).
Implicit Types (k_distances ds : list F).

(** C5 (as amended).  Take a list of at least two k-distances whose squared
    gaps [(k[i] - k[i-1]) ** 2] are all computed without raising, [ds] being
    their values.  Then [find_elbow_point] returns a position [e] between 1
    and [len - 1], namely [index(max(ds)) + 1].  Where the comparisons of the
    distortions are those of their real values, [ds[e-1]] is a largest
    distortion and every earlier one is smaller; on a constant list [e] is
    1. *)
Theorem find_elbow_point_spec k_distances ds :
  2 ≤ len k_distances →
  Forall2 (λ gap d, gap = Ok d) (squared_gaps ops k_distances) ds →
  ∃ e : Z, find_elbow_point ops k_distances = Ok e
    ∧ 1 ≤ e ≤ len k_distances - 1
    ∧ (∀ val : F → R, compares_as ops val ds →
       ∃ m, ds !! Z.to_nat (e - 1) = Some m
         ∧ (∀ d, d ∈ ds → (val d <= val m)%R)
         ∧ (∀ j d, (j < Z.to_nat (e - 1))%nat → ds !! j = Some d →
              (val d < val m)%R))
    ∧ (∀ c, Forall (λ x, x = c) k_distances → gt_irreflexive ops → e = 1).
Proof.
  intros Hlen Hgaps. apply elbow_distortions_Ok in Hgaps as Hds.
  destruct (find_elbow_point_found ops k_distances ds Hlen Hds)
    as (p & j & m & He & Hmax & Hm & Hjp & Hp & Hfound & Hnone).
  exists (Z.of_nat j + 1). split; [done|]. split; [lia|]. split.
  - intros val Hcmp.
    destruct (py_max_first_max ops val ds (p, m) Hcmp Hmax)
      as (_ & _ & Hupper & Hfirst). simpl in *.
    assert (j = p) as ->.
    { destruct Hfound as [|(x & Hx & Heq)]; [done|].
      destruct (decide (j = p)) as [|Hne]; [done|].
      assert ((val x < val m)%R) as Hlt by (apply (Hfirst j); [lia|done]).
      destruct (Hcmp x m) as [_ Heqv];
        [by eapply list_elem_of_lookup_2 | by eapply list_elem_of_lookup_2 |].
      apply Heqv in Heq. lra. }
    replace (Z.to_nat (Z.of_nat p + 1 - 1)) with p by lia.
    exists m. split; [done|]. split.
    + intros d Hd. apply list_elem_of_lookup_1 in Hd as [i Hi].
      apply (Hupper i); [by eapply lookup_lt_Some | done].
    + apply Hfirst.
  - intros c Hconst Hirr.
    rewrite (find_elbow_point_constant ops k_distances ds c) in He by done.
    by injection He.
Qed.

End ElbowResults.

Lemma find_elbow_point_spec_witness :
  (∃ e : Z,
     find_elbow_point (np_scalar numpy_float64)
       [1%float; 3%float; 2%float; 7%float] = Ok e
     ∧ 1 ≤ e ≤ len [1%float; 3%float; 2%float; 7%float] - 1)
  ∧ (∃ (e : Z) (m : R),
       find_elbow_point (np_scalar exact_numpy) [1; 3; 2; 7]%R = Ok e
       ∧ [(3 - 1) ^ 2; (2 - 3) ^ 2; (7 - 2) ^ 2]%R !! Z.to_nat (e - 1) = Some m
       ∧ ∀ d, d ∈ [(3 - 1) ^ 2; (2 - 3) ^ 2; (7 - 2) ^ 2]%R → (d <= m)%R).
Proof.
  split.
  - destruct (find_elbow_point_spec (np_scalar numpy_float64)
                [1%float; 3%float; 2%float; 7%float]
                [4%float; 1%float; 25%float])
      as (e & He & Hrange & _).
    + by vm_compute.
    + repeat constructor.
    + exists e. by split.
  - destruct (find_elbow_point_spec (np_scalar exact_numpy)
                [1; 3; 2; 7]%R [(3 - 1) ^ 2; (2 - 3) ^ 2; (7 - 2) ^ 2]%R)
      as (e & He & _ & Hval & _).
    + by vm_compute.
    + repeat constructor.
    + destruct (Hval (λ x, x) (exact_numpy_compares _)) as (m & Hm & Hup & _).
      by exists e, m.
Defined.

(** C5 as stated fails: on the Python floats [0.0] and [2.0 ** 600] the
    squared gap overflows and the call raises OverflowError, although the
    list has two elements. *)
Lemma find_elbow_point_overflow_counterexample :
  2 ≤ len [0%float; 0x1p+600%float]
  ∧ find_elbow_point python_float [0%float; 0x1p+600%float]
    = Raise OverflowError.
Proof. split; by vm_compute. Qed.

(** The largest jump of [1, 3, 2, 7] is the last one. *)
Example find_elbow_point_last_jump :
  find_elbow_point python_float [1%float; 3%float; 2%float; 7%float] = Ok 3.
Proof. by vm_compute. Qed.

(** A gap that rounding makes as large as a later, larger one is found
    first: [2^53 - 0.5] and [2^53 - 0.25] both round to [2^53]. *)
Example find_elbow_point_rounded_tie :
  find_elbow_point (np_scalar numpy_float64)
    [0.5%float; 0x1p+53%float; 0.25%float] = Ok 1.
Proof. by vm_compute. Qed.

(** ** The k-distance series *)

(** A slice with both bounds inside the list. *)
Lemma py_slice_in_range {A} (xs : list A) (start stop : Z) :
  0 ≤ start ≤ stop → stop ≤ len xs →
  py_slice xs start stop
  = take (Z.to_nat (stop - start)) (drop (Z.to_nat start) xs).
Proof.
  intros H1 H2. unfold py_slice, slice_bound.
  replace (start <? 0) with false by (symmetry; apply Z.ltb_ge; lia).
  replace (stop <? 0) with false by (symmetry; apply Z.ltb_ge; lia).
  by rewrite !Z.min_l by lia.
Qed.




Section ChunkFacts.
Context {A : Type}.
Implicit Types xs : list A.

(** The chunks, by position. *)
Lemma chunks_fuel_by_position (size : nat) :
  (0 < size)%nat →
  ∀ fuel xs, (length xs / size ≤ fuel)%nat →
    chunks_fuel fuel size xs
    = map (λ k, take size (drop (k * size) xs)) (seq 0 (length xs / size)).
Proof.
  intros Hsize. induction fuel as [|fuel IH]; intros xs Hfuel.
  - by replace (length xs / size)%nat with 0%nat by lia.
  - simpl. destruct (Nat.leb_spec size (length xs)) as [Hle|Hlt].
    + assert (length xs / size = S (length (drop size xs) / size))%nat as Hdiv.
      { rewrite length_drop.
        replace (length xs) with (1 * size + (length xs - size))%nat at 1 by lia.
        rewrite Nat.div_add_l by lia. lia. }
      rewrite Hdiv. simpl. f_equal.
      rewrite IH by lia. rewrite <- seq_shift, map_map.
      apply map_ext. intros k. rewrite drop_drop. f_equal; f_equal; lia.
    + by rewrite Nat.div_small by lia.
Qed.

Lemma chunks_by_position (size : nat) xs :
  (0 < size)%nat →
  chunks size xs
  = map (λ k, take size (drop (k * size) xs)) (seq 0 (length xs / size)).
Proof.
  intros Hsize. apply chunks_fuel_by_position; [done|].
  apply Nat.Div0.div_le_upper_bound. nia.
Qed.

Lemma chunks_full (size : nat) xs :
  (0 < size)%nat → Forall (λ c, length c = size) (chunks size xs).
Proof.
  intros Hsize. rewrite chunks_by_position by done.
  apply Forall_forall. intros c Hc.
  apply list_elem_of_In, in_map_iff in Hc as (k & <- & Hk).
  apply in_seq in Hk. rewrite length_take, length_drop.
  pose proof (Nat.Div0.mul_div_le (length xs) size). nia.
Qed.

Lemma length_chunks (size : nat) xs :
  (0 < size)%nat → length (chunks size xs) = (length xs / size)%nat.
Proof.
  intros Hsize. rewrite chunks_by_position by done.
  by rewrite length_map, length_seq.
Qed.

End ChunkFacts.

Section SeriesFacts.
Context {E F : Type} (np : numpy_ops E F).
Implicit Types features : list E.

Lemma k_distance_series_ok features (w : Z) :
  1 ≤ w →
  k_distance_series np features w
  = Ok (map (window_distance np) (chunks (Z.to_nat (2 * w)) features)).
Proof.
  intros Hw. unfold k_distance_series, py_floordiv.
  replace (2 * w =? 0) with false by (symmetry; apply Z.eqb_neq; lia).
  rewrite bind_Ok.
  set (size := Z.to_nat (2 * w)).
  pose proof (Z.mul_div_le (len features) (2 * w) ltac:(lia)) as Hdiv.
  rewrite (for_in_collect _ _ (λ idx,
    [window_distance np (take size (drop (Z.to_nat idx * size) features))])).
  - rewrite flat_map_singleton. simpl. f_equal.
    rewrite chunks_by_position by (unfold size; lia).
    rewrite map_map. unfold py_range, seqZ.
    change (?f <$> ?l) with (map f l). rewrite map_map.
    replace (Z.to_nat (len features / (2 * w) - 0))
      with (length features / size)%nat.
    + apply map_ext. intros k.
      by replace (Z.to_nat (Z.of_nat k + 0)) with k by lia.
    + unfold len, size. rewrite Z.sub_0_r, Z2Nat.inj_div by lia.
      by rewrite Nat2Z.id.
  - intros idx acc Hidx. apply elem_of_py_range in Hidx.
    rewrite py_slice_in_range by nia.
    replace (Z.to_nat (idx * 2 * w + 2 * w - idx * 2 * w)) with size
      by (unfold size; lia).
    by replace (Z.to_nat (idx * 2 * w)) with (Z.to_nat idx * size)%nat
      by (unfold size; nia).
Qed.



End SeriesFacts.



(** Chunks of two features: each k-distance is the gap between the two. *)
Example k_distance_series_pairs :
  k_distance_series numpy_float64
    [0%float; 3%float; 4%float; 0%float; 5%float] 1
  = Ok [3%float; 4%float].
Proof. by vm_compute. Qed.

(** ** The value handed to DBSCAN *)

Lemma find_elbow_point_positive {F} (ops : scalar_ops F)
    (k_distances : list F) (r : Z) :
  find_elbow_point ops k_distances = Ok r → 1 ≤ r.
Proof.
  intros Hr. destruct (Z.lt_ge_cases (len k_distances) 2) as [Hshort|Hlong].
  - by rewrite find_elbow_point_short in Hr.
  - destruct (elbow_distortions ops k_distances) as [ds|e] eqn:Hds.
    + destruct (find_elbow_point_found ops k_distances ds Hlong Hds)
        as (p & j & m & He & _).
      rewrite He in Hr. injection Hr as <-. lia.
    + unfold find_elbow_point in Hr. by rewrite Hds in Hr.
Qed.

(** The square of a numpy float64 never raises: the distortions are always
    computed. *)
Lemma zip_with_Ok {A B C} (g : A → B → C) (xs : list A) (ys : list B) :
  Forall2 (λ gap d, gap = Ok d)
          (zip_with (λ x y, Ok (g x y)) xs ys) (zip_with g xs ys).
Proof.
  revert ys. induction xs as [|x xs IH]; intros [|y ys]; simpl;
    constructor; auto.
Qed.

Section EpsilonResults.
Context {E F : Type} (np : numpy_ops E F).
Implicit Types features : list E.

Lemma np_scalar_distortions (k_distances : list F) :
  ∃ ds, elbow_distortions (np_scalar np) k_distances = Ok ds.
Proof.
  eexists. apply elbow_distortions_Ok. unfold squared_gaps. simpl.
  apply (zip_with_Ok (λ previous current,
           np_f64_square np (np_f64_sub np current previous))).
Qed.

Lemma find_elbow_point_np (k_distances : list F) :
  2 ≤ len k_distances →
  ∃ e, find_elbow_point (np_scalar np) k_distances = Ok e
    ∧ 1 ≤ e ≤ len k_distances - 1.
Proof.
  intros Hlen. destruct (np_scalar_distortions k_distances) as [ds Hds].
  destruct (find_elbow_point_found _ k_distances ds Hlen Hds)
    as (p & j & m & He & _ & _ & Hjp & Hp & _).
  eexists. split; [done|]. lia.
Qed.

(** [k_distance] for every window length: which exception, or the elbow of
    the series. *)
Lemma k_distance_zero_window features :
  k_distance np features 0 = Raise ZeroDivisionError.
Proof. reflexivity. Qed.

Lemma k_distance_negative_window features (w : Z) :
  w < 0 → k_distance np features w = Raise ValueError.
Proof.
  intros Hw. unfold k_distance, k_distance_series, py_floordiv.
  replace (2 * w =? 0) with false by (symmetry; apply Z.eqb_neq; lia).
  rewrite bind_Ok.
  assert (len features / (2 * w) ≤ 0) as Hneg.
  { pose proof (Z.div_mod (len features) (2 * w) ltac:(lia)).
    pose proof (Z.mod_neg_bound (len features) (2 * w) ltac:(lia)).
    unfold len in *. nia. }
  unfold py_range. by rewrite seqZ_nil by lia.
Qed.

Lemma k_distance_elbow features (w : Z) :
  1 ≤ w →
  ∃ series, k_distance np features w = find_elbow_point (np_scalar np) series
    ∧ series = map (window_distance np) (chunks (Z.to_nat (2 * w)) features)
    ∧ len series = len features / (2 * w).
Proof.
  intros Hw. unfold k_distance. rewrite k_distance_series_ok by done.
  rewrite bind_Ok. eexists. split; [done|]. split; [done|].
  unfold len. rewrite length_map, length_chunks by lia.
  by rewrite Nat2Z.inj_div, Z2Nat.id by lia.
Qed.

Lemma k_distance_few_chunks features (w : Z) :
  len features / (2 * w) < 2 →
  k_distance np features w = Raise ValueError
  ∨ k_distance np features w = Raise ZeroDivisionError.
Proof.
  intros Hfew. destruct (Z.lt_trichotomy w 0) as [Hw|[->|Hw]].
  - left. by apply k_distance_negative_window.
  - right. apply k_distance_zero_window.
  - left.
    destruct (k_distance_elbow features w) as (series & -> & _ & Hlen); [lia|].
    apply find_elbow_point_short. lia.
Qed.

(** C8 (as amended).  On a feature sequence shorter than
    [2 * window_length], [k_distance] returns no value: it raises the
    ValueError of [max] on the empty list of distortions. *)
Theorem k_distance_too_short features (w : Z) :
  len features < 2 * w →
  k_distance np features w = Raise ValueError
  ∧ ∀ r, k_distance np features w ≠ Ok r.
Proof.
  intros Hshort.
  assert (k_distance np features w = Raise ValueError) as Hraise.
  { assert (1 ≤ w) as Hw by (unfold len in Hshort; lia).
    destruct (k_distance_elbow features w Hw) as (series & -> & _ & Hlen).
    apply find_elbow_point_short.
    rewrite Hlen, Z.div_small by (unfold len in *; lia). lia. }
  split; [done|]. intros r. by rewrite Hraise.
Qed.

(** C9.  [k_distance] returns exactly when the window length is positive
    and the features give at least two chunks; whatever it returns is an
    integer of at least 1, so the [eps] that [main] passes to DBSCAN is
    never zero or negative. *)
Theorem k_distance_eps_positive features (w : Z) :
  (returns (k_distance np features w) ↔ 1 ≤ w ∧ 2 ≤ len features / (2 * w))
  ∧ (∀ r, k_distance np features w = Ok r → 1 ≤ r)
  ∧ (∀ data windowproportion eps,
       main_eps np data windowproportion = Ok eps → 1 ≤ eps).
Proof.
  assert (∀ fs w' r, k_distance np fs w' = Ok r → 1 ≤ r) as Hpos.
  { intros fs w' r Hr. unfold k_distance in Hr.
    destruct (k_distance_series np fs w') as [series|e]; [|done].
    by apply (find_elbow_point_positive (np_scalar np) series). }
  split; [split|split].
  - intros [r Hr].
    destruct (Z.lt_ge_cases (len features / (2 * w)) 2) as [Hfew|Hmany].
    + destruct (k_distance_few_chunks features w Hfew) as [H|H];
        by rewrite H in Hr.
    + split; [|done]. destruct (Z.lt_trichotomy w 0) as [Hw|[->|Hw]].
      * by rewrite k_distance_negative_window in Hr.
      * by rewrite k_distance_zero_window in Hr.
      * lia.
  - intros [Hw Hmany].
    destruct (k_distance_elbow features w Hw) as (series & -> & _ & Hlen).
    destruct (find_elbow_point_np series) as (e & He & _); [lia|].
    by exists e.
  - apply Hpos.
  - intros data wp eps Heps. unfold main_eps in Heps.
    destruct (py_floordiv (len data) wp) as [window_length|]; [|done].
    rewrite bind_Ok in Heps.
    destruct (create_feature_data data window_length) as [fs|]; [|done].
    rewrite bind_Ok in Heps. by apply (Hpos fs window_length).
Qed.
End EpsilonResults.

Lemma k_distance_too_short_witness :
  k_distance numpy_float64 [3%float; 7%float; 1%float] 2 = Raise ValueError
  ∧ ∀ r, k_distance numpy_float64 [3%float; 7%float; 1%float] 2 ≠ Ok r.
Proof.
  apply (k_distance_too_short numpy_float64 [3%float; 7%float; 1%float] 2).
  unfold len. simpl. lia.
Defined.

(** C8 as stated fails: on the empty sequence with window length 1 the
    exception is a ValueError, not an InsufficientDataError. *)
Lemma k_distance_insufficient_data_counterexample :
  len (@nil float) < 2 * 1
  ∧ k_distance numpy_float64 [] 1 = Raise ValueError
  ∧ k_distance numpy_float64 [] 1 ≠ Raise (UserError "InsufficientDataError").
Proof.
  split; [unfold len; simpl; lia|]. split; [reflexivity | discriminate].
Qed.

Lemma k_distance_eps_positive_witness :
  ∃ r, k_distance numpy_float64
         [3%float; 7%float; 1%float; 1%float; 9%float] 1 = Ok r ∧ 1 ≤ r.
Proof.
  destruct (k_distance_eps_positive numpy_float64
              [3%float; 7%float; 1%float; 1%float; 9%float] 1)
    as (Hreturns & Hpositive & _).
  destruct (proj2 Hreturns) as [r Hr].
  - split; [lia | by vm_compute].
  - exists r. split; [exact Hr | exact (Hpositive r Hr)].
Defined.

Example min_pnts_default : min_pnts 120000 40000 = Ok 3.
Proof. reflexivity. Qed.

Example min_pnts_one_bin : min_pnts 40000 40000 = Ok 1.
Proof. reflexivity. Qed.

(** ** Measure of concordance *)

Section ConcordanceFacts.
(** A loop whose body leaves the state alone returns it. *)
Lemma for_in_unchanged {X S} (xs : list X) (body : X → S → result S) (s : S) :
  (∀ x, x ∈ xs → body x s = Ok s) → for_in xs body s = Ok s.
Proof.
  induction xs as [|x xs IH]; intros Hbody; simpl; [done|].
  rewrite Hbody by left. rewrite bind_Ok.
  apply IH. intros; apply Hbody; by right.
Qed.

(** With one of the sets empty no pair is visited and the score is
    [(1 / (0 - 1)) * 0]. *)
Lemma measure_of_concordance_empty (tad_1 tad_2 : list (list Z)) :
  tad_1 = [] ∨ tad_2 = [] →
  measure_of_concordance tad_1 tad_2 = Ok (inject_Z 1 / inject_Z (-1) * 0)%Q.
Proof.
  intros Hempty. unfold measure_of_concordance.
  rewrite for_in_unchanged.
  - rewrite bind_Ok. unfold py_truediv.
    replace (len tad_1 * len tad_2 - 1) with (-1); [done|].
    destruct Hempty as [-> | ->]; unfold len; simpl; lia.
  - intros i Hi. destruct Hempty as [-> | ->].
    + apply elem_of_py_range in Hi. unfold len in Hi. simpl in Hi. lia.
    + done.
Qed.

(** With both sets non-empty the first pair already reads the unbound
    name [B]. *)
Lemma measure_of_concordance_unbound (tad_1 tad_2 : list (list Z)) :
  tad_1 ≠ [] → tad_2 ≠ [] →
  measure_of_concordance tad_1 tad_2 = Raise (NameError "B").
Proof.
  intros H1 H2. unfold measure_of_concordance.
  destruct tad_1 as [|a rest_1]; [done|].
  destruct tad_2 as [|b rest_2]; [done|].
  rewrite (py_range_cons 0 (len (a :: rest_1))) by (unfold len; simpl; lia).
  simpl for_in.
  rewrite (py_range_cons 0 (len (b :: rest_2))) by (unfold len; simpl; lia).
  simpl for_in. done.
Qed.

(** C2: the code departs from the claim.  On two copies of the TAD set
    [[1,2,3],[4,5,6]] the specified score is 3/4, and the call raises
    NameError for [B] instead of returning it. *)
Theorem measure_of_concordance_raises_name_error :
  measure_of_concordance [[1; 2; 3]; [4; 5; 6]] [[1; 2; 3]; [4; 5; 6]]
    = Raise (NameError "B")
  ∧ Qeq (moc_spec [[1; 2; 3]; [4; 5; 6]] [[1; 2; 3]; [4; 5; 6]]) (3 # 4).
Proof. split; reflexivity. Qed.

(** C7 (as amended).  [measure_of_concordance] has no check for degenerate
    input and never raises a DegenerateInputError; when one of the two TAD
    sets is empty it returns 0, whatever the sizes of the TADs of the other
    set. *)
Theorem measure_of_concordance_no_degenerate_check
    (tad_1 tad_2 : list (list Z)) :
  measure_of_concordance tad_1 tad_2 ≠ Raise (UserError "DegenerateInputError")
  ∧ (tad_1 = [] ∨ tad_2 = [] →
     ∃ moc, measure_of_concordance tad_1 tad_2 = Ok moc ∧ (moc == 0)%Q).
Proof.
  split.
  - destruct tad_1 as [|a rest_1].
    + by rewrite measure_of_concordance_empty by by left.
    + destruct tad_2 as [|b rest_2].
      * by rewrite measure_of_concordance_empty by by right.
      * by rewrite measure_of_concordance_unbound.
  - intros Hempty. rewrite measure_of_concordance_empty by done.
    eexists. split; [done|]. reflexivity.
Qed.

Lemma measure_of_concordance_no_degenerate_check_witness :
  ∃ moc, measure_of_concordance [[5]; [7; 8]] [] = Ok moc ∧ (moc == 0)%Q.
Proof.
  apply (measure_of_concordance_no_degenerate_check [[5]; [7; 8]] []).
  right. reflexivity.
Defined.

(** C7 as stated fails: the second set below has a TAD of size 1, and the
    call returns 0 without raising anything. *)
Lemma measure_of_concordance_degenerate_counterexample :
  [5] ∈ [[5]] ∧ len [5] = 1
  ∧ measure_of_concordance [] [[5]] = Ok 0%Q
  ∧ measure_of_concordance [] [[5]] ≠ Raise (UserError "DegenerateInputError").
Proof.
  split; [by left|]. split; [reflexivity|]. split; [reflexivity | discriminate].
Qed.
End ConcordanceFacts.

(** ** Modified Jaccard index *)

Section JaccardFacts.
Implicit Types (st : jaccard_state) (order : list Z).

(** As long as the two sets of the loop hold the same boundaries, a round
    of the inner loop adds the shifted boundary when the second input has
    it, and keeps them equal. *)
Lemma visit_offset_sets (tad_2 : gset Z) (boundary offset : Z) st :
  double_counted_boundaries st = intersecting_set st →
  let st' := visit_offset tad_2 boundary st offset in
  double_counted_boundaries st' = intersecting_set st'
  ∧ ∀ x, x ∈ intersecting_set st' ↔
         x ∈ intersecting_set st ∨ (x = boundary + offset ∧ x ∈ tad_2).
Proof.
  intros Hsame. unfold visit_offset. simpl.
  destruct (decide (boundary + offset ∈ tad_2)) as [Hin|Hout].
  - destruct (decide (boundary + offset ∉ double_counted_boundaries st))
      as [Hnew|Hold]; simpl.
    + split; [by rewrite Hsame|]. intros x.
      rewrite elem_of_union, elem_of_singleton.
      split; [intros [->|Hx] | intros [Hx|[-> _]]]; auto.
    + split; [done|]. intros x. apply dec_stable in Hold.
      rewrite Hsame in Hold.
      split; [auto | intros [Hx|[-> _]]; done].
  - split; [done|]. intros x.
    split; [auto | intros [Hx|[-> Hx]]; done].
Qed.

Lemma visit_boundary_sets (tad_2 : gset Z) (boundary : Z) st :
  double_counted_boundaries st = intersecting_set st →
  let st' := visit_boundary tad_2 st boundary in
  double_counted_boundaries st' = intersecting_set st'
  ∧ ∀ x, x ∈ intersecting_set st' ↔
         x ∈ intersecting_set st
         ∨ (x ∈ tad_2
            ∧ (x = boundary - 1 ∨ x = boundary ∨ x = boundary + 1)).
Proof.
  intros Hsame. unfold visit_boundary.
  change (py_range (-1) 2) with [-1; 0; 1]. simpl foldl.
  destruct (visit_offset_sets tad_2 boundary (-1) st Hsame) as [Hsame1 Hin1].
  destruct (visit_offset_sets tad_2 boundary 0 _ Hsame1) as [Hsame2 Hin2].
  destruct (visit_offset_sets tad_2 boundary 1 _ Hsame2) as [Hsame3 Hin3].
  split; [done|]. intros x. rewrite Hin3, Hin2, Hin1.
  replace (boundary + -1) with (boundary - 1) by lia.
  replace (boundary + 0) with boundary by lia.
  split.
  - intros [[[Hx|[-> Hx]]|[-> Hx]]|[-> Hx]]; auto.
  - intros [Hx|[Hx [-> | [-> | ->]]]]; auto 6.
Qed.

Lemma foldl_visit_boundary_sets (tad_2 : gset Z) order st :
  double_counted_boundaries st = intersecting_set st →
  let st' := foldl (visit_boundary tad_2) st order in
  double_counted_boundaries st' = intersecting_set st'
  ∧ ∀ x, x ∈ intersecting_set st' ↔
         x ∈ intersecting_set st
         ∨ (x ∈ tad_2
            ∧ ∃ b, b ∈ order ∧ (x = b - 1 ∨ x = b ∨ x = b + 1)).
Proof.
  revert st. induction order as [|b order IH]; intros st Hsame; simpl.
  - split; [done|]. intros x.
    split; [by left|]. intros [H|(_ & b & Hb & _)]; [done|].
    by apply elem_of_nil in Hb.
  - destruct (visit_boundary_sets tad_2 b st Hsame) as [Hsame' Hin'].
    destruct (IH _ Hsame') as [Hsame'' Hin''].
    split; [done|]. intros x. rewrite Hin'', Hin'. split.
    + intros [[H|[H2 Hx]]|(H2 & b' & Hb' & Hx)].
      * by left.
      * right. split; [done|]. exists b. split; [by left|done].
      * right. split; [done|]. exists b'. split; [by right|done].
    + intros [H|(H2 & b' & Hb' & Hx)]; [by left; left|].
      apply elem_of_cons in Hb' as [->|Hb'].
      * left. right. done.
      * right. split; [done|]. by exists b'.
Qed.

(** Whatever the order in which the boundaries of the first set are
    visited, the loop ends with the matched set. *)
Lemma jaccard_loop_matched (tad_1 tad_2 : gset Z) order :
  order ≡ₚ elements tad_1 →
  intersecting_set (jaccard_loop order tad_2) = matched_set tad_1 tad_2.
Proof.
  intros Horder. apply set_eq. intros x. unfold jaccard_loop.
  destruct (foldl_visit_boundary_sets tad_2 order (JaccardState ∅ ∅) eq_refl)
    as [_ Hin].
  rewrite Hin. simpl. unfold matched_set. rewrite elem_of_filter. split.
  - intros [H|(H2 & b & Hb & Hx)]; [by apply not_elem_of_empty in H|].
    rewrite Horder in Hb. apply elem_of_elements in Hb.
    split; [|done].
    destruct Hx as [-> | [-> | ->]].
    + right. right. by replace (b - 1 + 1) with b by lia.
    + right. by left.
    + left. by replace (b + 1 - 1) with b by lia.
  - intros [Hx H2]. right. split; [done|].
    destruct Hx as [Hx|[Hx|Hx]].
    + exists (x - 1). rewrite Horder, elem_of_elements. split; [done|]. lia.
    + exists x. rewrite Horder, elem_of_elements. split; [done|]. lia.
    + exists (x + 1). rewrite Horder, elem_of_elements. split; [done|]. lia.
Qed.

Lemma size_matched_set (tad_1 tad_2 : gset Z) :
  (size (matched_set tad_1 tad_2) ≤ size tad_2)%nat.
Proof.
  apply subseteq_size. unfold matched_set. intros x Hx.
  by apply elem_of_filter in Hx as [_ Hx].
Qed.

Lemma jaccard_score_nonneg (n_1 n_2 n_matched : Z) :
  0 ≤ n_1 → 0 ≤ n_matched ≤ n_2 →
  (0 <= jaccard_score n_1 n_2 n_matched)%Q.
Proof.
  intros H1 H2. unfold jaccard_score.
  destruct (Z.eqb_spec (n_1 + n_2 - n_matched) 0) as [|Hne]; [done|].
  apply Qle_shift_div_l.
  - change 0%Q with (inject_Z 0). rewrite <- Zlt_Qlt. lia.
  - rewrite Qmult_0_l. change 0%Q with (inject_Z 0). rewrite <- Zle_Qle. lia.
Qed.

Lemma jaccard_loop_counted (tad_2 : gset Z) order :
  double_counted_boundaries (jaccard_loop order tad_2)
  = intersecting_set (jaccard_loop order tad_2).
Proof.
  unfold jaccard_loop.
  by destruct (foldl_visit_boundary_sets tad_2 order (JaccardState ∅ ∅) eq_refl).
Qed.

Lemma modified_jaccard_index_closed_form (tad_1 tad_2 : gset Z) :
  modified_jaccard_index tad_1 tad_2
  = jaccard_score (Z.of_nat (size tad_1)) (Z.of_nat (size tad_2))
                  (Z.of_nat (size (matched_set tad_1 tad_2))).
Proof.
  unfold modified_jaccard_index. by rewrite (jaccard_loop_matched tad_1).
Qed.

(** C3.  In whatever order the boundaries of the first set are visited, the
    loop ends with the matched set (also the set of counted boundaries):
    the boundaries of the second set that are a boundary of the first
    shifted by -1, 0 or +1.  The index is the size of the matched set over
    [|set1| + |set2| - |matched|], or 0 when that is 0; on [{10,20,30}] and
    [{11,20,31}] it is 1. *)
Theorem modified_jaccard_index_spec (tad_1 tad_2 : gset Z) :
  (∀ order, order ≡ₚ elements tad_1 →
     intersecting_set (jaccard_loop order tad_2) = matched_set tad_1 tad_2
     ∧ double_counted_boundaries (jaccard_loop order tad_2)
       = matched_set tad_1 tad_2)
  ∧ (let matched := Z.of_nat (size (matched_set tad_1 tad_2)) in
     let union_size :=
       Z.of_nat (size tad_1) + Z.of_nat (size tad_2) - matched in
     modified_jaccard_index tad_1 tad_2
     = if union_size =? 0 then 0%Q
       else (inject_Z matched / inject_Z union_size)%Q)
  ∧ Qeq (modified_jaccard_index {[10; 20; 30]} {[11; 20; 31]}) 1.
Proof.
  split; [|split].
  - intros order Horder.
    rewrite jaccard_loop_counted. by rewrite (jaccard_loop_matched tad_1).
  - apply modified_jaccard_index_closed_form.
  - by vm_compute.
Qed.

Lemma modified_jaccard_index_spec_witness :
  intersecting_set (jaccard_loop [20; 30; 10] {[11; 20; 31]})
    = matched_set {[10; 20; 30]} {[11; 20; 31]}
  ∧ double_counted_boundaries (jaccard_loop [20; 30; 10] {[11; 20; 31]})
    = matched_set {[10; 20; 30]} {[11; 20; 31]}.
Proof.
  apply (modified_jaccard_index_spec {[10; 20; 30]} {[11; 20; 31]}).
  apply (bool_decide_unpack _). by vm_compute.
Defined.

(** C6.  The index depends on the order of its arguments: [{5}] against
    [{4,5,6}] scores 3, and [{4,5,6}] against [{5}] scores 1/3. *)
Theorem modified_jaccard_index_directional :
  ∃ a b : gset Z,
    ¬ Qeq (modified_jaccard_index a b) (modified_jaccard_index b a).
Proof. exists {[5]}, {[4; 5; 6]}. by vm_compute. Qed.

(** C10.  The index is never negative, and it can exceed 1: [{5}] against
    [{4,5,6}] scores 3. *)
Theorem modified_jaccard_index_range :
  (∀ tad_1 tad_2 : gset Z, Qle 0 (modified_jaccard_index tad_1 tad_2))
  ∧ Qeq (modified_jaccard_index {[5]} {[4; 5; 6]}) 3
  ∧ Qlt 1 (modified_jaccard_index {[5]} {[4; 5; 6]}).
Proof.
  split; [|split].
  - intros tad_1 tad_2. rewrite modified_jaccard_index_closed_form.
    apply jaccard_score_nonneg; [lia|].
    pose proof (size_matched_set tad_1 tad_2). lia.
  - by vm_compute.
  - by vm_compute.
Qed.
End JaccardFacts.

(** * Further properties of the code *)

(** ** Loops *)

(** What holds before a loop and is kept by every round that returns holds
    after the loop. *)
Lemma for_in_invariant {X S} (P : S → Prop) (xs : list X)
    (body : X → S → result S) :
  (∀ x s s', x ∈ xs → P s → body x s = Ok s' → P s') →
  ∀ s s', P s → for_in xs body s = Ok s' → P s'.
Proof.
  induction xs as [|x xs IH]; intros Hbody s s' Hs Hrun; simpl in Hrun.
  - by injection Hrun as <-.
  - destruct (body x s) as [s1|e] eqn:Hx; [|done]. rewrite bind_Ok in Hrun.
    apply (IH (λ y t t' Hy, Hbody y t t' (list_elem_of_further _ _ _ Hy))
              s1 s'); [|done].
    apply (Hbody x s s1); [by left|done|done].
Qed.

(** ** Feature extraction: windows of any length *)

(** A window length of zero or less, or an array without rows, gives no
    feature. *)
Lemma create_feature_data_no_window {A} (matrix : list (list A)) (w : Z) :
  w ≤ 0 ∨ matrix = [] → create_feature_data matrix w = Ok [].
Proof.
  intros [Hw | ->]; [|done]. unfold create_feature_data.
  apply for_in_unchanged. intros diag Hdiag. apply elem_of_py_range in Hdiag.
  replace (len matrix <? w + diag) with false
    by (symmetry; apply Z.ltb_ge; lia).
  unfold py_range. by rewrite seqZ_nil by lia.
Qed.

(** X1.  A window length of zero or less, or an array without rows, makes
    [create_feature_data] return the empty list: the forward branch is taken
    on every diagonal and its ranges are empty. *)
Theorem create_feature_data_empty_result {A} (matrix : list (list A))
    (w : Z) :
  w ≤ 0 ∨ matrix = [] → create_feature_data matrix w = Ok [].
Proof. apply create_feature_data_no_window. Qed.

Lemma create_feature_data_empty_result_witness :
  create_feature_data [[1; 2]; [3; 4]] (-3) = Ok [].
Proof.
  apply (create_feature_data_empty_result [[1; 2]; [3; 4]] (-3)). left. lia.
Defined.

(** X2.  On a square [n] by [n] array with [n >= 1], [create_feature_data]
    returns exactly when the window length is at most [n + 1]; a longer
    window raises IndexError. *)
Theorem create_feature_data_returns_iff {A} (n : nat)
    (matrix : list (list A)) (w : Z) :
  square n matrix → (1 ≤ n)%nat →
  (returns (create_feature_data matrix w) ↔ w ≤ Z.of_nat n + 1)
  ∧ (Z.of_nat n + 2 ≤ w → create_feature_data matrix w = Raise IndexError).
Proof.
  intros Hsq Hn.
  assert (Z.of_nat n + 2 ≤ w → create_feature_data matrix w = Raise IndexError)
    as Hlong by (by apply create_feature_data_window_too_long).
  split; [split|done].
  - intros [fs Hfs]. destruct (Z.le_gt_cases w (Z.of_nat n + 1)); [done|].
    rewrite Hlong in Hfs by lia. done.
  - intros Hw. destruct (Z.le_gt_cases w 0) as [Hle|Hgt].
    + exists []. apply create_feature_data_no_window. by left.
    + destruct Hsq as [Hlen Hrows].
      destruct matrix as [|[|x row] rest]; [simpl in Hlen; lia | |].
      * apply Forall_cons in Hrows as [Hrow _]. simpl in Hrow. lia.
      * eexists. apply (create_feature_data_in_bounds x n); [done | lia].
Qed.

Lemma create_feature_data_returns_iff_witness :
  create_feature_data [[1; 2]; [3; 4]] 5 = Raise IndexError.
Proof.
  destruct (create_feature_data_returns_iff 2 [[1; 2]; [3; 4]] 5) as [_ Hlong].
  - split; [reflexivity | repeat constructor].
  - lia.
  - apply Hlong. lia.
Defined.

(** A cell that can be read is an entry of a row of the array. *)
Lemma np_getitem2_entry {A} (matrix : list (list A)) (i j : Z) (x : A) :
  np_getitem2 matrix i j = Ok x → ∃ row, row ∈ matrix ∧ x ∈ row.
Proof.
  unfold np_getitem2. intros H.
  destruct (np_axis (length matrix) i) as [r|]; [|done]. rewrite bind_Ok in H.
  destruct (matrix !! r) as [row|] eqn:Hrow; [|done].
  destruct (np_axis (length row) j) as [c|]; [|done]. rewrite bind_Ok in H.
  destruct (row !! c) as [y|] eqn:Hy; [|done]. injection H as <-.
  exists row. split; by eapply list_elem_of_lookup_2.
Qed.

Lemma create_feature_data_entries {A} (matrix : list (list A)) (w : Z)
    (features : list A) :
  create_feature_data matrix w = Ok features →
  Forall (λ x, ∃ row, row ∈ matrix ∧ x ∈ row) features.
Proof.
  set (P := Forall (λ x : A, ∃ row, row ∈ matrix ∧ x ∈ row)).
  assert (∀ i j acc acc', P acc →
            (np_getitem2 matrix i j ≫= λ x, Ok (acc ++ [x])) = Ok acc' → P acc')
    as Hcell.
  { intros i j acc acc' Hacc H.
    destruct (np_getitem2 matrix i j) as [x|] eqn:Hx; [|done].
    rewrite bind_Ok in H. injection H as <-.
    apply Forall_app. split; [done|].
    apply Forall_singleton. by apply (np_getitem2_entry matrix i j). }
  unfold create_feature_data.
  apply (for_in_invariant P); [|by apply Forall_nil].
  intros diag acc acc' _ Hacc.
  destruct (len matrix <? w + diag).
  - apply (for_in_invariant P); [|done]. intros i acc1 acc1' _ Hacc1.
    apply (for_in_invariant P); [|done]. intros j acc2 acc2' _. apply Hcell.
  - apply (for_in_invariant P); [|done]. intros j acc1 acc1' _ Hacc1.
    apply (for_in_invariant P); [|done]. intros i acc2 acc2' _. apply Hcell.
Qed.

(** X3.  Whatever the shape of the array and the window length, every
    feature [create_feature_data] returns is an entry of the array. *)
Theorem create_feature_data_only_entries {A} (matrix : list (list A))
    (w : Z) (features : list A) :
  create_feature_data matrix w = Ok features →
  ∀ x, x ∈ features → ∃ row, row ∈ matrix ∧ x ∈ row.
Proof.
  intros Hrun. apply Forall_forall.
  by apply (create_feature_data_entries matrix w).
Qed.

Lemma create_feature_data_only_entries_witness :
  ∃ row, row ∈ [[1; 2; 3]; [4; 5; 6]; [7; 8; 9]] ∧ 8 ∈ row.
Proof.
  apply (create_feature_data_only_entries
           [[1; 2; 3]; [4; 5; 6]; [7; 8; 9]] 2
           [1; 4; 2; 5; 5; 8; 6; 9; 9; 8; 6; 5]).
  - reflexivity.
  - apply list_elem_of_In. simpl. auto 10.
Defined.

(** ** The elbow and the k-distances: edges *)

(** Every computation of a list returned, or one of them raised. *)
Lemma results_all_or_raise {A} (gs : list (result A)) :
  (∃ ds, Forall2 (λ g d, g = Ok d) gs ds)
  ∨ (∃ g e, g ∈ gs ∧ g = Raise e).
Proof.
  induction gs as [|[d|e] gs IH].
  - left. by exists [].
  - destruct IH as [[ds Hds]|(g & e & Hg & He)].
    + left. exists (d :: ds). by constructor.
    + right. exists g, e. split; [by right|done].
  - right. exists (Raise e), e. split; [by left|done].
Qed.

(** X4.  [find_elbow_point] raises the ValueError of [max] on an empty list
    when it is given fewer than two k-distances.  Given two or more, it
    returns exactly when no squared gap [(k[i] - k[i-1]) ** 2] raises; on
    numpy float64 values, whose square never raises, it returns exactly when
    it is given at least two. *)
Theorem find_elbow_point_returns_iff {F} (ops : scalar_ops F)
    (k_distances : list F) :
  (len k_distances < 2 → find_elbow_point ops k_distances = Raise ValueError)
  ∧ (2 ≤ len k_distances →
     (returns (find_elbow_point ops k_distances)
      ↔ Forall returns (squared_gaps ops k_distances)))
  ∧ (∀ E (np : numpy_ops E F),
       returns (find_elbow_point (np_scalar np) k_distances)
       ↔ 2 ≤ len k_distances).
Proof.
  split; [apply find_elbow_point_short|]. split.
  - intros Hlen. split.
    + intros [e He].
      destruct (results_all_or_raise (squared_gaps ops k_distances))
        as [[ds Hds]|(g & e' & Hg & Hraise)].
      * clear -Hds. induction Hds as [|g d gs ds -> _ IH]; constructor;
          [by exists d | done].
      * destruct (find_elbow_point_raises ops _ _ _ Hg Hraise) as [e'' H].
        by rewrite H in He.
    + intros Hall.
      destruct (results_all_or_raise (squared_gaps ops k_distances))
        as [[ds Hds]|(g & e' & Hg & ->)].
      * apply elbow_distortions_Ok in Hds.
        destruct (find_elbow_point_found ops _ ds Hlen Hds)
          as (p & j & m & He & _).
        by eexists.
      * rewrite Forall_forall in Hall. by destruct (Hall _ Hg).
  - intros E np. split.
    + intros [e He].
      destruct (Z.lt_ge_cases (len k_distances) 2) as [Hshort|]; [|done].
      by rewrite find_elbow_point_short in He.
    + intros Hlen. destruct (find_elbow_point_np np k_distances Hlen)
        as (e & He & _). by exists e.
Qed.

Lemma find_elbow_point_returns_iff_witness :
  find_elbow_point python_float [5%float] = Raise ValueError
  ∧ returns (find_elbow_point python_float [5%float; 8%float; 6%float]).
Proof.
  split.
  - apply (find_elbow_point_returns_iff python_float [5%float]).
    by vm_compute.
  - destruct (find_elbow_point_returns_iff python_float
                [5%float; 8%float; 6%float]) as (_ & Hiff & _).
    apply Hiff; [by vm_compute|].
    repeat constructor; by eexists.
Defined.

Section EpsilonEdges.
Context {E F : Type} (np : numpy_ops E F).
Implicit Types features : list E.

Lemma chunks_constant (size : nat) (xs : list E) (c : E) :
  (0 < size)%nat → Forall (λ x, x = c) xs →
  Forall (λ chunk, chunk = replicate size c) (chunks size xs).
Proof.
  intros Hsize Hconst. pose proof (chunks_full size xs Hsize) as Hfull.
  rewrite chunks_by_position in * by done.
  apply Forall_forall. intros chunk Hchunk.
  rewrite Forall_forall in Hfull. specialize (Hfull chunk Hchunk).
  apply list_elem_of_In, in_map_iff in Hchunk as (k & <- & _).
  symmetry. apply replicate_as_Forall. split; [done|].
  apply Forall_take, Forall_drop.
  eapply Forall_impl; [done|]. by intros x ->.
Qed.

Lemma k_distance_constant features (w : Z) (c : E) :
  1 ≤ w → 4 * w ≤ len features →
  Forall (λ x, x = c) features → gt_irreflexive (np_scalar np) →
  k_distance np features w = Ok 1.
Proof.
  intros Hw Hlen Hconst Hirr.
  destruct (k_distance_elbow np features w Hw) as (series & -> & Hseries & Hn).
  destruct (np_scalar_distortions np series) as [ds Hds].
  apply (find_elbow_point_constant _ series ds
           (window_distance np (replicate (Z.to_nat (2 * w)) c)));
    [|done| |done].
  - rewrite Hn. apply Z.div_le_lower_bound; lia.
  - rewrite Hseries. apply Forall_map.
    eapply Forall_impl; [apply (chunks_constant _ _ c); [lia|done]|].
    by intros chunk ->.
Qed.

(** X6.  On features that are all equal and give at least two chunks, the
    k-distances are all the same number and [k_distance] returns 1, in any
    arithmetic where no number is greater than itself (as in float64). *)
Theorem k_distance_constant_features features (w : Z) (c : E) :
  1 ≤ w → 4 * w ≤ len features →
  Forall (λ x, x = c) features → gt_irreflexive (np_scalar np) →
  k_distance np features w = Ok 1.
Proof. apply k_distance_constant. Qed.

(** X7.  The exceptions of [k_distance]: a window length of zero divides by
    zero; a negative one, or a positive one with fewer than two chunks of
    features, ends in the ValueError of [max] on an empty list. *)
Theorem k_distance_exceptions features (w : Z) :
  (w = 0 → k_distance np features w = Raise ZeroDivisionError)
  ∧ (w < 0 → k_distance np features w = Raise ValueError)
  ∧ (1 ≤ w → len features < 4 * w →
     k_distance np features w = Raise ValueError).
Proof.
  split; [|split].
  - intros ->. apply k_distance_zero_window.
  - apply k_distance_negative_window.
  - intros Hw Hlen.
    destruct (k_distance_elbow np features w Hw) as (series & -> & _ & Hseries).
    apply find_elbow_point_short. rewrite Hseries.
    apply Z.div_lt_upper_bound; lia.
Qed.

(** X8.  A value [k_distance] returns is a position inside the series of
    k-distances: it is at most the number of chunks minus one, and the window
    length is positive. *)
Theorem k_distance_upper_bound features (w r : Z) :
  k_distance np features w = Ok r →
  1 ≤ w ∧ 1 ≤ r ≤ len features / (2 * w) - 1.
Proof.
  intros Hr. destruct (Z.lt_trichotomy w 0) as [Hw|[->|Hw]].
  - by rewrite k_distance_negative_window in Hr.
  - by rewrite k_distance_zero_window in Hr.
  - split; [lia|].
    destruct (k_distance_elbow np features w) as (series & Hk & _ & Hseries);
      [lia|].
    rewrite Hk in Hr.
    destruct (Z.lt_ge_cases (len series) 2) as [Hshort|Hlong].
    + by rewrite find_elbow_point_short in Hr.
    + destruct (find_elbow_point_np np series Hlong) as (e & He & Hrange).
      rewrite He in Hr. injection Hr as <-. lia.
Qed.
End EpsilonEdges.

Lemma k_distance_constant_features_witness :
  k_distance numpy_float64 [7%float; 7%float; 7%float; 7%float; 7%float] 1
  = Ok 1.
Proof.
  apply (k_distance_constant_features numpy_float64
           [7%float; 7%float; 7%float; 7%float; 7%float] 1 7%float).
  - lia.
  - by vm_compute.
  - repeat constructor.
  - apply numpy_float64_gt_irreflexive.
Defined.

Lemma k_distance_exceptions_witness :
  k_distance numpy_float64 [1%float; 2%float; 3%float] 1 = Raise ValueError
  ∧ k_distance numpy_float64 [1%float; 2%float; 3%float] (-2)
    = Raise ValueError
  ∧ k_distance numpy_float64 [1%float; 2%float; 3%float] 0
    = Raise ZeroDivisionError.
Proof.
  split; [|split].
  - destruct (k_distance_exceptions numpy_float64
                [1%float; 2%float; 3%float] 1) as (_ & _ & Hfew).
    apply Hfew; [lia | by vm_compute].
  - destruct (k_distance_exceptions numpy_float64
                [1%float; 2%float; 3%float] (-2)) as (_ & Hneg & _).
    apply Hneg. lia.
  - destruct (k_distance_exceptions numpy_float64
                [1%float; 2%float; 3%float] 0) as (Hzero & _).
    apply Hzero. reflexivity.
Defined.

Lemma k_distance_upper_bound_witness :
  1 ≤ 1
  ∧ 1 ≤ 1 ≤ len [7%float; 7%float; 7%float; 7%float; 7%float] / (2 * 1) - 1.
Proof.
  apply (k_distance_upper_bound numpy_float64
           [7%float; 7%float; 7%float; 7%float; 7%float] 1 1).
  by vm_compute.
Defined.

(** ** The pipeline of [main] up to the clustering *)

(** On a square array the window length [n // p] of [main], for
    [1 <= p <= n], lies between 1 and [n]. *)
Lemma window_length_range (n p : Z) :
  1 ≤ p ≤ n → 1 ≤ n / p ≤ n.
Proof.
  intros Hp. split.
  - apply Z.div_le_lower_bound; lia.
  - apply Z.div_le_upper_bound; nia.
Qed.

Section PipelineFacts.
Context {E F : Type} (np : numpy_ops E F).
Implicit Types data : list (list E).

Lemma main_eps_features (n : nat) data (p : Z) :
  square n data → 1 ≤ p ≤ Z.of_nat n →
  let w := Z.of_nat n / p in
  ∃ features, main_eps np data p = k_distance np features w
    ∧ create_feature_data data w = Ok features
    ∧ len features = Z.of_nat n * (w * w)
    ∧ len features / (2 * w) = Z.of_nat n * w / 2.
Proof.
  intros Hsq Hp w. pose proof Hsq as [Hlen Hrows].
  assert (1 ≤ w ≤ Z.of_nat n) as Hw by (by apply window_length_range).
  destruct data as [|[|x row] rest]; [simpl in Hlen; lia | |].
  { apply Forall_cons in Hrows as [Hrow _]. simpl in Hrow. lia. }
  set (data := (x :: row) :: rest) in *.
  assert (len (feature_sequence x data w) = Z.of_nat n * (w * w)) as Hfs.
  { rewrite length_feature_sequence by lia. unfold len. by rewrite Hlen. }
  exists (feature_sequence x data w). repeat split.
  - unfold main_eps, py_floordiv, len. rewrite Hlen.
    replace (p =? 0) with false by (symmetry; apply Z.eqb_neq; lia).
    rewrite bind_Ok. fold w.
    by rewrite (create_feature_data_in_bounds x n) by (done || lia).
  - apply (create_feature_data_in_bounds x n); [done | lia].
  - done.
  - rewrite Hfs.
    replace (Z.of_nat n * (w * w)) with (Z.of_nat n * w * w) by lia.
    apply Z.div_mul_cancel_r; lia.
Qed.

(** X9.  On a square [n] by [n] array, with a window proportion [p] between
    1 and [n] and [n * (n // p) >= 4], [main] gets its [eps]: feature
    extraction returns [n * (n // p)^2] features, they give [n * (n // p) // 2]
    k-distances, and [eps] is between 1 and that number minus one. *)
Theorem main_eps_returns (n : nat) data (p : Z) :
  square n data → 1 ≤ p ≤ Z.of_nat n → 4 ≤ Z.of_nat n * (Z.of_nat n / p) →
  ∃ eps, main_eps np data p = Ok eps
    ∧ 1 ≤ eps ≤ Z.of_nat n * (Z.of_nat n / p) / 2 - 1.
Proof.
  intros Hsq Hp Hbig.
  destruct (main_eps_features n data p Hsq Hp) as (fs & -> & _ & _ & Hchunks).
  pose proof (window_length_range _ _ Hp) as Hw.
  destruct (k_distance_elbow np fs (Z.of_nat n / p))
    as (series & -> & _ & Hseries); [lia|].
  rewrite Hchunks in Hseries.
  destruct (find_elbow_point_np np series) as (e & He & Hrange).
  - rewrite Hseries. apply Z.div_le_lower_bound; lia.
  - exists e. split; [done|]. lia.
Qed.

(** X10.  A window proportion of zero, or one larger than the number of rows
    (the window length is then zero), makes [main] fail with
    ZeroDivisionError before any clustering, whatever the array. *)
Theorem main_eps_zero_division data (p : Z) :
  p = 0 ∨ len data < p → main_eps np data p = Raise ZeroDivisionError.
Proof.
  intros [-> | Hp]; [done|]. unfold main_eps, py_floordiv.
  replace (p =? 0) with false
    by (symmetry; apply Z.eqb_neq; unfold len in Hp; lia).
  rewrite bind_Ok, Z.div_small by (unfold len in *; lia).
  rewrite create_feature_data_no_window by (left; lia).
  done.
Qed.

(** X11.  [main] fails with ValueError when the window proportion is negative
    (on an array with a row), and on a square array too small to give two
    chunks of features: [n * (n // p) < 4]. *)
Theorem main_eps_value_error (n : nat) data (p : Z) :
  (data ≠ [] → p < 0 → main_eps np data p = Raise ValueError)
  ∧ (square n data → 1 ≤ p ≤ Z.of_nat n →
     Z.of_nat n * (Z.of_nat n / p) < 4 →
     main_eps np data p = Raise ValueError).
Proof.
  split.
  - intros Hdata Hp. unfold main_eps, py_floordiv.
    replace (p =? 0) with false by (symmetry; apply Z.eqb_neq; lia).
    rewrite bind_Ok.
    assert (len data / p < 0) as Hw.
    { pose proof (Z.div_mod (len data) p ltac:(lia)).
      pose proof (Z.mod_neg_bound (len data) p ltac:(lia)).
      assert (1 ≤ len data) by (unfold len; destruct data; simpl; [done|lia]).
      nia. }
    rewrite create_feature_data_no_window by (left; lia).
    rewrite bind_Ok. by apply k_distance_negative_window.
  - intros Hsq Hp Hsmall.
    destruct (main_eps_features n data p Hsq Hp) as (fs & -> & _ & _ & Hchunks).
    pose proof (window_length_range _ _ Hp) as Hw.
    destruct (k_distance_elbow np fs (Z.of_nat n / p))
      as (series & -> & _ & Hseries); [lia|].
    apply find_elbow_point_short. rewrite Hseries, Hchunks.
    apply Z.div_lt_upper_bound; lia.
Qed.

(** X12.  On a square array whose entries are all equal, the features are
    all equal too and [main] gets [eps = 1], whenever it gets one
    ([1 <= p <= n] and [n * (n // p) >= 4]), in any arithmetic where no
    number is greater than itself (as in float64). *)
Theorem main_eps_uniform_matrix (n : nat) data (p : Z) (c : E) :
  square n data → Forall (Forall (λ x, x = c)) data →
  1 ≤ p ≤ Z.of_nat n → 4 ≤ Z.of_nat n * (Z.of_nat n / p) →
  gt_irreflexive (np_scalar np) →
  main_eps np data p = Ok 1.
Proof.
  intros Hsq Hconst Hp Hbig Hirr.
  destruct (main_eps_features n data p Hsq Hp) as (fs & -> & Hfs & Hlen & _).
  pose proof (window_length_range _ _ Hp) as Hw.
  apply (k_distance_constant np fs _ c); [lia | rewrite Hlen; nia | | done].
  eapply Forall_impl;
    [by apply (create_feature_data_entries data (Z.of_nat n / p) fs)|].
  intros x (row & Hrow & Hx). simpl.
  rewrite Forall_forall in Hconst. specialize (Hconst row Hrow).
  rewrite Forall_forall in Hconst. by apply Hconst.
Qed.
End PipelineFacts.

Lemma main_eps_returns_witness :
  ∃ eps, main_eps numpy_float64 [[1%float; 2%float]; [2%float; 1%float]] 1
         = Ok eps
    ∧ 1 ≤ eps ≤ Z.of_nat 2 * (Z.of_nat 2 / 1) / 2 - 1.
Proof.
  apply (main_eps_returns numpy_float64 2
           [[1%float; 2%float]; [2%float; 1%float]] 1).
  - split; [reflexivity | repeat constructor].
  - lia.
  - by vm_compute.
Defined.

Lemma main_eps_zero_division_witness :
  main_eps numpy_float64 [[1%float; 2%float]; [2%float; 1%float]] 3
  = Raise ZeroDivisionError.
Proof.
  apply (main_eps_zero_division numpy_float64
           [[1%float; 2%float]; [2%float; 1%float]] 3).
  right. by vm_compute.
Defined.

Lemma main_eps_value_error_witness :
  main_eps numpy_int64 [[1; 2; 3]; [2; 1; 2]; [3; 2; 1]] 2 = Raise ValueError
  ∧ main_eps numpy_int64 [[1; 2]; [2; 1]] (-1) = Raise ValueError.
Proof.
  split.
  - destruct (main_eps_value_error numpy_int64 3
                [[1; 2; 3]; [2; 1; 2]; [3; 2; 1]] 2) as [_ Hsmall].
    apply Hsmall.
    + split; [reflexivity | repeat constructor].
    + lia.
    + by vm_compute.
  - destruct (main_eps_value_error numpy_int64 2 [[1; 2]; [2; 1]] (-1))
      as [Hneg _].
    apply Hneg; [discriminate | lia].
Defined.

Lemma main_eps_uniform_matrix_witness :
  main_eps numpy_int64 [[5; 5]; [5; 5]] 1 = Ok 1.
Proof.
  apply (main_eps_uniform_matrix numpy_int64 2 [[5; 5]; [5; 5]] 1 5).
  - split; [reflexivity | repeat constructor].
  - repeat constructor.
  - lia.
  - by vm_compute.
  - apply numpy_int64_gt_irreflexive.
Defined.

(** ** Minimum number of bins *)

(** X13.  [min_pnts] divides by the bin size rounding down: a bin size of
    zero raises ZeroDivisionError; for a positive one the result [m] is the
    number of whole bins in the minimum TAD size, and it is at least 1
    exactly when the minimum TAD size is at least one bin. *)
Theorem min_pnts_whole_bins (min_tad_size resolution : Z) :
  (resolution = 0 → min_pnts min_tad_size resolution = Raise ZeroDivisionError)
  ∧ (0 < resolution →
     ∃ m, min_pnts min_tad_size resolution = Ok m
       ∧ m * resolution ≤ min_tad_size < (m + 1) * resolution
       ∧ (1 ≤ m ↔ resolution ≤ min_tad_size)).
Proof.
  split.
  - intros ->. reflexivity.
  - intros Hres. unfold min_pnts, py_floordiv.
    replace (resolution =? 0) with false by (symmetry; apply Z.eqb_neq; lia).
    eexists. split; [done|].
    pose proof (Z.div_mod min_tad_size resolution ltac:(lia)) as Hdiv.
    pose proof (Z.mod_pos_bound min_tad_size resolution Hres) as Hmod.
    split; [nia|]. split; intros H; nia.
Qed.

Lemma min_pnts_whole_bins_witness :
  ∃ m, min_pnts 100000 40000 = Ok m
    ∧ m * 40000 ≤ 100000 < (m + 1) * 40000
    ∧ (1 ≤ m ↔ 40000 ≤ 100000).
Proof.
  destruct (min_pnts_whole_bins 100000 40000) as [_ Hpos].
  apply Hpos. lia.
Defined.

(** ** Measure of concordance: every outcome *)

(** X14.  Given two non-empty TAD sets, [measure_of_concordance] raises
    NameError for [B] on the first pair, before any division: no input makes
    it raise ZeroDivisionError, not even two single TADs of one bin. *)
Theorem measure_of_concordance_outcomes (tad_1 tad_2 : list (list Z)) :
  (tad_1 ≠ [] → tad_2 ≠ [] →
   measure_of_concordance tad_1 tad_2 = Raise (NameError "B"))
  ∧ measure_of_concordance tad_1 tad_2 ≠ Raise ZeroDivisionError.
Proof.
  split; [apply measure_of_concordance_unbound|].
  destruct tad_1 as [|a rest_1].
  - by rewrite measure_of_concordance_empty by by left.
  - destruct tad_2 as [|b rest_2].
    + by rewrite measure_of_concordance_empty by by right.
    + by rewrite measure_of_concordance_unbound.
Qed.

Lemma measure_of_concordance_outcomes_witness :
  measure_of_concordance [[5]] [[5]] = Raise (NameError "B").
Proof.
  destruct (measure_of_concordance_outcomes [[5]] [[5]]) as [Hname _].
  apply Hname; discriminate.
Defined.

(** ** Modified Jaccard index: bounds and special inputs *)

Section JaccardBounds.
Implicit Types (st : jaccard_state) (order : list Z).

(** A round of the inner loop adds at most one boundary. *)
Lemma size_visit_offset (tad_2 : gset Z) (boundary offset : Z) st :
  (size (intersecting_set (visit_offset tad_2 boundary st offset))
   ≤ S (size (intersecting_set st)))%nat.
Proof.
  unfold visit_offset.
  destruct (decide (boundary + offset ∈ tad_2)); [|lia].
  destruct (decide (boundary + offset ∉ double_counted_boundaries st)); [|lia].
  simpl. rewrite size_union_alt, size_singleton.
  apply le_n_S, subseteq_size. intros x Hx.
  by apply elem_of_difference in Hx as [Hx _].
Qed.

Lemma size_visit_boundary (tad_2 : gset Z) (boundary : Z) st :
  (size (intersecting_set (visit_boundary tad_2 st boundary))
   ≤ 3 + size (intersecting_set st))%nat.
Proof.
  unfold visit_boundary. change (py_range (-1) 2) with [-1; 0; 1]. simpl foldl.
  pose proof (size_visit_offset tad_2 boundary (-1) st).
  pose proof (size_visit_offset tad_2 boundary 0
                (visit_offset tad_2 boundary st (-1))).
  pose proof (size_visit_offset tad_2 boundary 1
                (visit_offset tad_2 boundary
                   (visit_offset tad_2 boundary st (-1)) 0)).
  lia.
Qed.

Lemma size_foldl_visit_boundary (tad_2 : gset Z) order st :
  (size (intersecting_set (foldl (visit_boundary tad_2) st order))
   ≤ 3 * length order + size (intersecting_set st))%nat.
Proof.
  revert st. induction order as [|b order IH]; intros st; simpl; [lia|].
  pose proof (IH (visit_boundary tad_2 st b)).
  pose proof (size_visit_boundary tad_2 b st). lia.
Qed.

(** Each boundary of the first set matches at most three of the second. *)
Lemma size_matched_set_first (tad_1 tad_2 : gset Z) :
  (size (matched_set tad_1 tad_2) ≤ 3 * size tad_1)%nat.
Proof.
  rewrite <- (jaccard_loop_matched tad_1 tad_2 (elements tad_1)) by done.
  unfold jaccard_loop.
  pose proof (size_foldl_visit_boundary tad_2 (elements tad_1)
                (JaccardState ∅ ∅)) as H.
  change (intersecting_set (JaccardState ∅ ∅)) with (∅ : gset Z) in H.
  rewrite size_empty in H.
  change (length (elements tad_1)) with (size tad_1) in H. lia.
Qed.

Lemma jaccard_score_bound (n_1 n_2 n_matched k : Z) :
  0 ≤ k → 0 ≤ n_1 + n_2 - n_matched →
  n_matched ≤ k * (n_1 + n_2 - n_matched) →
  Qle (jaccard_score n_1 n_2 n_matched) (inject_Z k).
Proof.
  intros Hk Hunion Hm. unfold jaccard_score.
  destruct (Z.eqb_spec (n_1 + n_2 - n_matched) 0) as [|Hne].
  - change 0%Q with (inject_Z 0). by rewrite <- Zle_Qle.
  - apply Qle_shift_div_r.
    + change 0%Q with (inject_Z 0). rewrite <- Zlt_Qlt. lia.
    + rewrite <- inject_Z_mult, <- Zle_Qle. lia.
Qed.

Lemma jaccard_score_zero (n_1 n_2 n_matched : Z) :
  n_1 + n_2 - n_matched ≠ 0 →
  Qeq (jaccard_score n_1 n_2 n_matched) 0 ↔ n_matched = 0.
Proof.
  intros Hne. unfold jaccard_score.
  destruct (Z.eqb_spec (n_1 + n_2 - n_matched) 0) as [|_]; [done|].
  assert (¬ Qeq (inject_Z (n_1 + n_2 - n_matched)) 0) as Hq.
  { change 0%Q with (inject_Z 0). by rewrite inject_Z_injective. }
  split.
  - intros Hzero. apply inject_Z_injective.
    rewrite <- (Qmult_div_r (inject_Z n_matched) _ Hq).
    rewrite Hzero. apply Qmult_0_r.
  - intros ->. unfold Qdiv. apply Qmult_0_l.
Qed.

Lemma matched_set_empty_iff (tad_1 tad_2 : gset Z) :
  matched_set tad_1 tad_2 = ∅ ↔
  ∀ x y, x ∈ tad_1 → y ∈ tad_2 → 1 < Z.abs (x - y).
Proof.
  unfold matched_set. split.
  - intros Hempty x y Hx Hy.
    destruct (Z.lt_ge_cases 1 (Z.abs (x - y))) as [|Hnear]; [done|].
    assert (y ∈ filter (λ z, z - 1 ∈ tad_1 ∨ z ∈ tad_1 ∨ z + 1 ∈ tad_1) tad_2)
      as Hin.
    { apply elem_of_filter. split; [|done].
      assert (x = y - 1 ∨ x = y ∨ x = y + 1) as [-> | [-> | ->]] by lia; auto. }
    rewrite Hempty in Hin. by apply not_elem_of_empty in Hin.
  - intros Hfar. apply set_eq. intros y. split.
    + intros Hy. apply elem_of_filter in Hy as [Hnear Hy].
      destruct Hnear as [Hx|[Hx|Hx]]; specialize (Hfar _ _ Hx Hy); lia.
    + intros Hy. by apply not_elem_of_empty in Hy.
Qed.

Lemma size_matched_zero_iff (tad_1 tad_2 : gset Z) :
  Z.of_nat (size (matched_set tad_1 tad_2)) = 0 ↔
  ∀ x y, x ∈ tad_1 → y ∈ tad_2 → 1 < Z.abs (x - y).
Proof.
  rewrite <- matched_set_empty_iff. split.
  - intros H. apply leibniz_equiv, size_empty_iff. lia.
  - intros ->. by rewrite size_empty.
Qed.

Lemma modified_jaccard_index_zero_iff (tad_1 tad_2 : gset Z) :
  Qeq (modified_jaccard_index tad_1 tad_2) 0 ↔
  ∀ x y, x ∈ tad_1 → y ∈ tad_2 → 1 < Z.abs (x - y).
Proof.
  rewrite modified_jaccard_index_closed_form, <- size_matched_zero_iff.
  pose proof (size_matched_set tad_1 tad_2) as H2.
  pose proof (size_matched_set_first tad_1 tad_2) as H1.
  set (m := size (matched_set tad_1 tad_2)) in *.
  destruct (Z.eq_dec (Z.of_nat (size tad_1) + Z.of_nat (size tad_2)
                      - Z.of_nat m) 0) as [Hzero|Hne].
  - unfold jaccard_score. rewrite Hzero. simpl. split; [lia | done].
  - by apply jaccard_score_zero.
Qed.

(** X15.  When either boundary set is empty the index is 0. *)
Theorem modified_jaccard_index_empty (tad_1 tad_2 : gset Z) :
  tad_1 = ∅ ∨ tad_2 = ∅ → Qeq (modified_jaccard_index tad_1 tad_2) 0.
Proof.
  intros Hempty. apply modified_jaccard_index_zero_iff. intros x y Hx Hy.
  destruct Hempty as [-> | ->]; by apply not_elem_of_empty in Hx || 
    by apply not_elem_of_empty in Hy.
Qed.

Lemma modified_jaccard_index_empty_witness :
  Qeq (modified_jaccard_index {[10; 20]} ∅) 0.
Proof.
  apply (modified_jaccard_index_empty {[10; 20]} ∅). by right.
Defined.

(** X16.  A non-empty boundary set scores 1 against itself. *)
Theorem modified_jaccard_index_identical (tad : gset Z) :
  tad ≠ ∅ → Qeq (modified_jaccard_index tad tad) 1.
Proof.
  intros Hne. rewrite modified_jaccard_index_closed_form.
  assert (matched_set tad tad = tad) as ->.
  { apply set_eq. intros x. unfold matched_set. rewrite elem_of_filter.
    split; [by intros [_ Hx] | auto]. }
  assert (size tad ≠ 0%nat) as Hsize.
  { intros H. by apply size_empty_iff, leibniz_equiv in H. }
  unfold jaccard_score.
  replace (Z.of_nat (size tad) + Z.of_nat (size tad) - Z.of_nat (size tad))
    with (Z.of_nat (size tad)) by lia.
  destruct (Z.eqb_spec (Z.of_nat (size tad)) 0) as [|Hnz]; [lia|].
  apply Qmult_inv_r. change 0%Q with (inject_Z 0).
  by rewrite inject_Z_injective.
Qed.

Lemma modified_jaccard_index_identical_witness :
  Qeq (modified_jaccard_index {[10; 20; 30]} {[10; 20; 30]}) 1.
Proof.
  apply (modified_jaccard_index_identical {[10; 20; 30]}).
  intros H. apply (f_equal size) in H. vm_compute in H. discriminate.
Defined.

(** X17.  The index never exceeds 3, and it is at most 1 when the second
    set has no more boundaries than the first. *)
Theorem modified_jaccard_index_upper_bounds (tad_1 tad_2 : gset Z) :
  Qle (modified_jaccard_index tad_1 tad_2) 3
  ∧ ((size tad_2 ≤ size tad_1)%nat →
     Qle (modified_jaccard_index tad_1 tad_2) 1).
Proof.
  pose proof (size_matched_set tad_1 tad_2) as H2.
  pose proof (size_matched_set_first tad_1 tad_2) as H1.
  rewrite modified_jaccard_index_closed_form. split.
  - apply (jaccard_score_bound _ _ _ 3); lia.
  - intros Hsize. apply (jaccard_score_bound _ _ _ 1); lia.
Qed.

Lemma modified_jaccard_index_upper_bounds_witness :
  Qle (modified_jaccard_index {[4; 5; 6]} {[5; 9]}) 1.
Proof.
  apply (modified_jaccard_index_upper_bounds {[4; 5; 6]} {[5; 9]}).
  vm_compute. lia.
Defined.

(** X18.  The index is 0 exactly when no boundary of the first set is
    within one bin of a boundary of the second; so, although the index
    depends on the order of its arguments, whether it is 0 does not. *)
Theorem modified_jaccard_index_zero (tad_1 tad_2 : gset Z) :
  (Qeq (modified_jaccard_index tad_1 tad_2) 0 ↔
   ∀ x y, x ∈ tad_1 → y ∈ tad_2 → 1 < Z.abs (x - y))
  ∧ (Qeq (modified_jaccard_index tad_1 tad_2) 0 ↔
     Qeq (modified_jaccard_index tad_2 tad_1) 0).
Proof.
  split; [apply modified_jaccard_index_zero_iff|].
  rewrite !modified_jaccard_index_zero_iff. split.
  - intros H x y Hx Hy. specialize (H y x Hy Hx). lia.
  - intros H x y Hx Hy. specialize (H y x Hy Hx). lia.
Qed.

Lemma modified_jaccard_index_zero_witness :
  Qeq (modified_jaccard_index {[10; 20]} {[12; 18; 30]}) 0.
Proof.
  destruct (modified_jaccard_index_zero {[10; 20]} {[12; 18; 30]})
    as [[_ Hfar] _].
  apply Hfar. intros x y Hx Hy.
  set_unfold. lia.
Defined.
End JaccardBounds.
